(** * eatc-airlines: the [gen] command of [src/cli.ts] and [Direction.fromBearing]

    A shallow embedding of the record normaliser, the aggregator, the scoring
    and the listing of the [gen] action (last revision of [src/cli.ts]), of
    [tailToCallsign], and of [Direction.fromBearing] ([api.ts]).

    Conventions of the embedding.
    - A JavaScript string is a [string] of the Standard Library: a sequence of
      8-bit characters.  [toUpperCase] and [toLowerCase] are the ASCII case
      mappings, which is what ECMAScript does on the 7-bit range, the alphabet
      of registrations, callsigns and type designators.
    - A JavaScript number is an IEEE-754 binary64 value: a [spec_float] with
      the operations of [SpecFloat] at precision 53 and maximal exponent 1024.
      Array lengths and the two rotating cursors of [tailToCallsign] are
      natural numbers.
    - [null] is [None]; the airline of a flight, which the code also tests
      against [undefined], has a three-valued type.
    - [Set] is an insertion-ordered list without duplicates, [Map] iteration
      is list iteration in insertion order.

    The development then embeds what surrounds [gen] in [src/cli.ts]:
    [printTable] and the rows of [table], the counts of [flow], the loading
    of the flights ([loadFlightsFromFs], [loadFlights]), what [fetch] keeps
    and writes, and the validation of the records in [get].
    - [program.error], which ends the process, is the outcome [Exit] with
      its message; an exception that nothing catches is [Throws].
    - What the host gives ([JSON.parse], [fs], [path.join], the standard
      input, the formatting of dates) is a parameter of the definitions
      that use it; the time of a flight is the time value of a valid
      [Date]. *)

From Stdlib Require Import Bool Arith List ZArith Lia.
From Stdlib Require Import Ascii String.
From Stdlib Require Import Floats.SpecFloat.
From Stdlib Require Import Sorting.Permutation Sorting.Sorted.
From Stdlib Require Structures.OrderedTypeEx.
From Stdlib Require DecimalString.
Import ListNotations.

Local Open Scope string_scope.
Local Open Scope list_scope.
Local Open Scope nat_scope.

(* ================================================================== *)
(** ** Strings *)

Module Str.

(** Character classes of the regular expressions of the source:
    [\d], [[A-Z]], [[a-z]] and [\s]. *)
Definition is_digit (c : ascii) : bool :=
  let n := nat_of_ascii c in (48 <=? n) && (n <=? 57).

Definition is_upper (c : ascii) : bool :=
  let n := nat_of_ascii c in (65 <=? n) && (n <=? 90).

Definition is_lower (c : ascii) : bool :=
  let n := nat_of_ascii c in (97 <=? n) && (n <=? 122).

Definition is_space (c : ascii) : bool :=
  let n := nat_of_ascii c in ((9 <=? n) && (n <=? 13)) || (n =? 32).

Definition upper_char (c : ascii) : ascii :=
  if is_lower c then ascii_of_nat (nat_of_ascii c - 32) else c.

Definition lower_char (c : ascii) : ascii :=
  if is_upper c then ascii_of_nat (nat_of_ascii c + 32) else c.

(** [s.split("")] and [a.join("")]. *)
Definition split_chars (s : string) : list ascii := list_ascii_of_string s.
Definition join_chars (l : list ascii) : string := string_of_list_ascii l.

(** [s.toUpperCase()], [s.toLowerCase()]. *)
Definition toUpperCase (s : string) : string :=
  join_chars (map upper_char (split_chars s)).

Definition toLowerCase (s : string) : string :=
  join_chars (map lower_char (split_chars s)).

(** [s.startsWith(p)]. *)
Definition startsWith (s p : string) : bool := String.prefix p s.

(** [s.indexOf(p)], [None] standing for [-1]. *)
Fixpoint indexOf_from (fuel : nat) (i : nat) (s p : string) : option nat :=
  if String.prefix p s then Some i
  else match fuel, s with
       | S fuel', String _ s' => indexOf_from fuel' (S i) s' p
       | _, _ => None
       end.

Definition indexOf (s p : string) : option nat :=
  indexOf_from (String.length s) 0 s p.

(** [s.includes(p)]. *)
Definition includes (s p : string) : bool :=
  match indexOf s p with Some _ => true | None => false end.

(** [s.endsWith(p)]. *)
Definition endsWith (s p : string) : bool :=
  let n := String.length s in
  let k := String.length p in
  (k <=? n) && String.eqb (String.substring (n - k) k s) p.

(** [s.slice(i)] and [s.slice(0, j)] for [0 <= i] and [0 <= j]. *)
Definition slice_from (i : nat) (s : string) : string :=
  String.substring i (String.length s - i) s.

Definition slice_to (j : nat) (s : string) : string :=
  String.substring 0 j s.

(** [s.slice(0, -1)]. *)
Definition drop_last (s : string) : string :=
  slice_to (String.length s - 1) s.

(** [s.replace(p, r)] with a string pattern: only the first occurrence of
    [p] is replaced. *)
Definition replace_first (p r s : string) : string :=
  match indexOf s p with
  | Some i => (slice_to i s ++ r ++ slice_from (i + String.length p) s)%string
  | None => s
  end.

(** [s.replaceAll(p, r)] with a non-empty string pattern: the occurrences
    of [p] are replaced from left to right, without overlap. *)
Fixpoint replaceAll_fuel (fuel : nat) (p r s : string) : string :=
  match fuel with
  | O => s
  | S fuel' =>
      if String.prefix p s
      then (r ++ replaceAll_fuel fuel' p r (slice_from (String.length p) s))%string
      else match s with
           | EmptyString => EmptyString
           | String c s' => String c (replaceAll_fuel fuel' p r s')
           end
  end.

Definition replaceAll (p r s : string) : string :=
  match p with
  | EmptyString => s
  | _ => replaceAll_fuel (S (String.length s)) p r s
  end.

(** [s[i]] for an index in range; the code only indexes [digits] and
    [alphabet] modulo their length. *)
Definition charAt (s : string) (i : nat) : ascii :=
  match String.get i s with
  | Some c => c
  | None => zero
  end.

End Str.

(* ================================================================== *)
(** ** [tailToCallsign] *)

Definition alphabet : string := "ABCDEFGHIJKLMNOPQRSTUVWXYZ".
Definition digits : string := "1234567890".

(** The two cursors [indices = {letter: 0, number: 0}]. *)
Record Indices : Set := mkIndices { letter : nat; number : nat }.

(** The callback of [localPart.split("").map(...)]: the character produced
    and the cursors after it. *)
Definition translit (indices : Indices) (char : ascii) : ascii * Indices :=
  if Str.is_digit char then
    (Str.charAt digits (number indices mod String.length digits),
     {| letter := letter indices; number := S (number indices) |})
  else if Str.is_upper char then
    (Str.charAt alphabet (letter indices mod String.length alphabet),
     {| letter := S (letter indices); number := number indices |})
  else (char, indices).

Fixpoint translit_all (indices : Indices) (chars : list ascii) : list ascii :=
  match chars with
  | [] => []
  | char :: rest =>
      let '(out, indices') := translit indices char in
      out :: translit_all indices' rest
  end.

(** [localPartFormat], as a function of [sample]. *)
Definition localPartFormat (sample : string) : string :=
  let localPart := Str.toUpperCase sample in
  Str.join_chars (translit_all (mkIndices 0 0) (Str.split_chars localPart)).

Definition tailToCallsign (prefix sample : string) : string :=
  let countryPart := Str.toUpperCase prefix in
  (countryPart ++ "-" ++ localPartFormat sample)%string.

(* ================================================================== *)
(** ** Numbers *)

Module Num.

(** A JavaScript number: IEEE-754 binary64. *)
Definition number : Set := spec_float.

Definition prec : Z := 53.
Definition emax : Z := 1024.

Definition NaN : number := S754_nan.

(** The number of an integer (array lengths, integer literals), rounded
    to nearest even when it needs more than 53 bits. *)
Definition of_Z (z : Z) : number := binary_normalize prec emax z 0 false.
Definition of_nat (n : nat) : number := of_Z (Z.of_nat n).

Definition add : number -> number -> number := SFadd prec emax.
Definition sub : number -> number -> number := SFsub prec emax.
Definition mul : number -> number -> number := SFmul prec emax.
Definition div : number -> number -> number := SFdiv prec emax.

(** [x < y], [x <= y], [x >= y], [x > y]: false as soon as one side is
    [NaN]. *)
Definition ltb (x y : number) : bool := SFltb x y.
Definition leb (x y : number) : bool := SFleb x y.
Definition geb (x y : number) : bool := SFleb y x.
Definition gtb (x y : number) : bool := SFltb y x.

(** The literal [0.005]: the binary64 value nearest to 5/1000, which is
    what the correctly rounded quotient of 5 by 1000 is. *)
Definition lit_0_005 : number := div (of_Z 5) (of_Z 1000).

(** [n % d] (ECMAScript Number::remainder): exact, with the sign of the
    dividend. *)
Definition rem (n d : number) : number :=
  match n, d with
  | S754_nan, _ | _, S754_nan => S754_nan
  | S754_infinity _, _ => S754_nan
  | _, S754_infinity _ => n
  | _, S754_zero _ => S754_nan
  | S754_zero _, _ => n
  | S754_finite sn mn en, S754_finite _ md ed =>
      let e := Z.min en ed in
      let r := Z.rem (Z.shiftl (Zpos mn) (en - e)) (Z.shiftl (Zpos md) (ed - e)) in
      match r with
      | Z0 => S754_zero sn
      | _ => binary_normalize prec emax (cond_Zopp sn r) e sn
      end
  end.

(** [Math.round(x)]: the integer nearest to [x], the larger one on a tie;
    [-0] for [x] in [[-0.5, -0]]. *)
Definition round (x : number) : number :=
  match x with
  | S754_finite s m e =>
      if (0 <=? e)%Z then x
      else
        let k := ((2 * cond_Zopp s (Zpos m) + 2 ^ (- e)) / 2 ^ (1 - e))%Z in
        if (k =? 0)%Z then S754_zero s else of_Z k
  | _ => x
  end.

(** The sign of a comparator's result as [Array.prototype.sort] reads it:
    negative, zero (also for [NaN]) or positive. *)
Definition sign (x : number) : comparison :=
  match x with
  | S754_finite s _ _ | S754_infinity s => if s then Lt else Gt
  | S754_zero _ | S754_nan => Eq
  end.

End Num.

(* ================================================================== *)
(** ** [api.ts]: directions, locations, flights *)

Module Direction.
(** The four static instances [Direction.N], [E], [S], [W]; the
    constructor is private, so identity of instances is equality here. *)
Inductive t : Set := N | E | S | W.

Definition name (d : t) : string :=
  match d with N => "N" | E => "E" | S => "S" | W => "W" end.

Definition eqb (a b : t) : bool :=
  match a, b with
  | N, N | E, E | S, S | W, W => true
  | _, _ => false
  end.

(** [Direction.fromBearing]. *)
Definition fromBearing (bearing : Num.number) : t :=
  let normalisedBearing :=
    Num.rem (Num.add bearing (Num.of_Z 360)) (Num.of_Z 360) in
  if Num.geb normalisedBearing (Num.of_Z 225) && Num.ltb normalisedBearing (Num.of_Z 315) then W
  else if Num.geb normalisedBearing (Num.of_Z 135) && Num.ltb normalisedBearing (Num.of_Z 225) then S
  else if Num.geb normalisedBearing (Num.of_Z 45) && Num.ltb normalisedBearing (Num.of_Z 135) then E
  else N.
End Direction.

Record Location : Set := mkLocation {
  loc_name : string;
  lat : Num.number;
  lon : Num.number
}.

(** The airline of a flight: a string, [null], or [undefined] when the
    loaded JSON has no such member. *)
Inductive Airline : Set :=
| Undefined
| Null
| Code (code : string).

Definition airline_eqb (a b : Airline) : bool :=
  match a, b with
  | Undefined, Undefined | Null, Null => true
  | Code x, Code y => String.eqb x y
  | _, _ => false
  end.

Inductive Bound : Set := arrival | departure.

Module Flight.
Record t : Set := make {
  id : Z;
  time : Z;
  tail : option string;
  type : string;
  airline : Airline;
  callsign : option string;
  to : Location;
  from : Location;
  bound : option Bound
}.
End Flight.

(** [PHONETIC] of [api.ts]. *)
Definition PHONETIC : list (ascii * string) :=
  [ ("A"%char, "Alpha"); ("B"%char, "Bravo"); ("C"%char, "Charlie");
    ("D"%char, "Delta"); ("E"%char, "Echo"); ("F"%char, "Foxtrot");
    ("G"%char, "Golf"); ("H"%char, "Hotel"); ("I"%char, "India");
    ("J"%char, "Juliet"); ("K"%char, "Kilo"); ("L"%char, "Lima");
    ("M"%char, "Mike"); ("N"%char, "November"); ("O"%char, "Oscar");
    ("P"%char, "Papa"); ("Q"%char, "Quebec"); ("R"%char, "Romeo");
    ("S"%char, "Sierra"); ("T"%char, "Tango"); ("U"%char, "Uniform");
    ("V"%char, "Victor"); ("W"%char, "Whisky"); ("X"%char, "X-Ray");
    ("Y"%char, "Yankee"); ("Z"%char, "Zulu") ].

(** [PHONETIC[c] ?? c]. *)
Definition phonetic (c : ascii) : string :=
  match find (fun kv => Ascii.eqb (fst kv) c) PHONETIC with
  | Some kv => snd kv
  | None => String c EmptyString
  end.

(* ================================================================== *)
(** ** Regular expressions of the [gen] action *)

Module Re.

(** [/^[A-Z]{3}\d[A-Z\d]{0,3}$/.test(s)]: no [i] flag, so only capital
    letters match [[A-Z]]. *)
Definition airline_callsign (s : string) : bool :=
  match Str.split_chars s with
  | a :: b :: c :: d :: rest =>
      Str.is_upper a && Str.is_upper b && Str.is_upper c && Str.is_digit d
      && (List.length rest <=? 3)
      && forallb (fun x => Str.is_upper x || Str.is_digit x) rest
  | _ => false
  end.

(** [/^[A-Z]{4,}/.test(s)]. *)
Definition four_letters (s : string) : bool :=
  match Str.split_chars s with
  | a :: b :: c :: d :: _ =>
      Str.is_upper a && Str.is_upper b && Str.is_upper c && Str.is_upper d
  | _ => false
  end.

(** [s.replace(/[^A-Z\d]/g, "")]. *)
Definition strip_non_alnum (s : string) : string :=
  Str.join_chars
    (filter (fun x => Str.is_upper x || Str.is_digit x) (Str.split_chars s)).

(** [s.trim()]. *)
Fixpoint trim_start (l : list ascii) : list ascii :=
  match l with
  | c :: l' => if Str.is_space c then trim_start l' else l
  | [] => []
  end.

Definition trim (s : string) : string :=
  Str.join_chars (rev (trim_start (rev (trim_start (Str.split_chars s))))).

(** [s.replace(/\s+/g, " ")]: [in_run] tells that the previous character
    was white space, already replaced. *)
Fixpoint collapse (in_run : bool) (l : list ascii) : list ascii :=
  match l with
  | [] => []
  | c :: l' =>
      if Str.is_space c
      then (if in_run then collapse true l' else " "%char :: collapse true l')
      else c :: collapse false l'
  end.

Definition collapse_spaces (s : string) : string :=
  Str.join_chars (collapse false (Str.split_chars s)).

End Re.

(* ================================================================== *)
(** ** Sorting and sets *)

Section Sorting.
Variable A : Type.
(** The comparator, by the sign of its result: [Lt] when the first
    argument goes first, [Gt] when the second does. *)
Variable cmp : A -> A -> comparison.

Fixpoint insert_sorted (x : A) (l : list A) : list A :=
  match l with
  | [] => [x]
  | y :: l' =>
      match cmp x y with
      | Gt => y :: insert_sorted x l'
      | _ => x :: l
      end
  end.

(** [l.sort(cmp)]: ECMAScript requires the sort to be stable and, for a
    consistent comparator, fixes its result; the stable insertion sort
    computes it. *)
Definition js_sort (l : list A) : list A :=
  fold_right insert_sorted [] l.
End Sorting.

Arguments insert_sorted {A} cmp x l.
Arguments js_sort {A} cmp l.

Section Sets.
Variable A : Type.
Variable eqb : A -> A -> bool.

(** [s.has(x)] and [s.add(x)] on an insertion-ordered [Set]. *)
Definition set_has (s : list A) (x : A) : bool := existsb (eqb x) s.

Definition set_add (s : list A) (x : A) : list A :=
  if set_has s x then s else s ++ [x].
End Sets.

Arguments set_has {A} eqb s x.
Arguments set_add {A} eqb s x.

(** [l.join(sep)] on strings. *)
Fixpoint join (sep : string) (l : list string) : string :=
  match l with
  | [] => EmptyString
  | [x] => x
  | x :: l' => (x ++ sep ++ join sep l')%string
  end.

(* ================================================================== *)
(** ** The [gen] action *)

Module Cluster.
(** An entry of [merged]. *)
Record t : Set := make {
  airline : Airline;
  type : list string;
  direction : list Direction.t;
  flights : list Flight.t;
  score : Num.number;
  pronunciation : option string
}.
End Cluster.

(** What the normalising loop does with one flight: [flights.delete(id)],
    [flights.set(id, f)], or nothing. *)
Inductive Action : Set :=
| Delete
| Replace (f : Flight.t)
| Keep.

(** The branch of the loop body that decides. *)
Inductive Branch : Set :=
| invalid            (* the first test: helicopter, or nothing to identify *)
| regional           (* "Regional registrations": tail and callsign agree *)
| airline_callsign   (* "Assuming airline callsign" *)
| long_callsign      (* callsign that starts with 4 letters or more *)
| untouched.

Definition PVT : string := "{PVT}".

(** [new Flight(flight.id, ..., airline, flight.callsign,
    new Location(...), new Location(...), flight.bound)]. *)
Definition with_airline (flight : Flight.t) (airline : string) : Flight.t :=
  Flight.make (Flight.id flight) (Flight.time flight) (Flight.tail flight)
    (Flight.type flight) (Code airline) (Flight.callsign flight)
    (mkLocation (loc_name (Flight.to flight)) (lat (Flight.to flight))
       (lon (Flight.to flight)))
    (mkLocation (loc_name (Flight.from flight)) (lat (Flight.from flight))
       (lon (Flight.from flight)))
    (Flight.bound flight).

(** The last branch passes [flight.to] and [flight.from] themselves. *)
Definition with_airline_same_locations (flight : Flight.t) (airline : string)
  : Flight.t :=
  Flight.make (Flight.id flight) (Flight.time flight) (Flight.tail flight)
    (Flight.type flight) (Code airline) (Flight.callsign flight)
    (Flight.to flight) (Flight.from flight) (Flight.bound flight).

(** The test of the "Regional registrations" branch:
    [tail.replace("-", "").toUpperCase()
       === callsign.replace("-", "").toUpperCase()]. *)
Definition same_registration (tail callsign : string) : bool :=
  String.eqb (Str.toUpperCase (Str.replace_first "-" "" tail))
             (Str.toUpperCase (Str.replace_first "-" "" callsign)).

Section Gen.

(** The data files [helicopters.json], [prefixes.json], [callsigns.json]
    (a [Map] built from the entries of the object); [NUMBERS] of [api.ts],
    by its entries; the method [flight.direction()] of [api.ts]; and the
    host's [localeCompare] and [toFixed(2)]. *)
Variable helicopters : list string.
Variable prefixes : list string.
Variable callsigns : list (string * string).
Variable NUMBERS : list (string * string).
Variable direction : Flight.t -> Direction.t.
Variable localeCompare : string -> string -> Z.
Variable toFixed2 : Num.number -> string.

(** [prefixes.find(p => tail.toUpperCase().startsWith(p))]. *)
Definition find_prefix (tail : string) : option string :=
  find (fun p => Str.startsWith (Str.toUpperCase tail) p) prefixes.

(** The body of [if (tail.replace(...) === callsign.replace(...))]. *)
Definition regional_action (flight : Flight.t) (tail : string) : Action :=
  if negb (Str.includes tail "-") then
    match find_prefix tail with
    | None => Delete
    | Some prefix =>
        Replace (with_airline flight
                   (tailToCallsign prefix
                      (Str.slice_from (String.length prefix)
                         (Str.toUpperCase tail))))
    end
  else
    match Str.indexOf tail "-" with
    | Some i =>
        Replace (with_airline flight
                   (tailToCallsign (Str.slice_to i tail)
                      (Str.slice_from (i + 1) tail)))
    | None => (* [indexOf] is [-1]: [slice(0, -1)] and [slice(0)] *)
        Replace (with_airline flight
                   (tailToCallsign (Str.drop_last tail) tail))
    end.

Definition is_invalid (flight : Flight.t) : bool :=
  existsb (String.eqb (Str.toUpperCase (Flight.type flight))) helicopters
  || (airline_eqb (Flight.airline flight) Null
      && match Flight.callsign flight with None => true | _ => false end)
  || (airline_eqb (Flight.airline flight) Null
      && match Flight.tail flight with None => true | _ => false end).

(** [if (callsign !== null && (airline === "{PVT}" || airline === null))
    ... else if (callsign !== null && /^[A-Z]{4,}/.test(...)) ...]. *)
Definition callsign_branches (flight : Flight.t) : Branch * Action :=
  match Flight.callsign flight with
  | Some callsign =>
      if airline_eqb (Flight.airline flight) (Code PVT)
         || airline_eqb (Flight.airline flight) Null
      then
        (airline_callsign,
         if negb (Re.airline_callsign callsign) then Delete
         else Replace (with_airline flight (Str.slice_to 3 callsign)))
      else if Re.four_letters (Str.toUpperCase callsign)
      then
        (long_callsign,
         Replace (with_airline_same_locations flight
                    (Re.strip_non_alnum (Str.toUpperCase callsign) ++ "-")%string))
      else (untouched, Keep)
  | None => (untouched, Keep)
  end.

(** One iteration of [for (const [id, flight] of flights)]. *)
Definition normalise_flight (flight : Flight.t) : Branch * Action :=
  if is_invalid flight then (invalid, Delete)
  else
    match Flight.tail flight, Flight.callsign flight with
    | Some tail, Some callsign =>
        if same_registration tail callsign
        then (regional, regional_action flight tail)
        else callsign_branches flight
    | _, _ => callsign_branches flight
    end.

(** The effect of an action on the entry of the flight in the [Map]: the
    entry goes, is overwritten in place, or stays. *)
Definition apply_action (flight : Flight.t) (a : Action) : list Flight.t :=
  match a with
  | Delete => []
  | Replace f => [f]
  | Keep => [flight]
  end.

(** The normalising loop over the [Map] of flights, in insertion order. *)
Definition normalise (flights : list Flight.t) : list Flight.t :=
  flat_map (fun flight => apply_action flight (snd (normalise_flight flight)))
    flights.

(** The pronunciation of a new cluster. *)
Definition spell_numbers (s : string) : string :=
  fold_left
    (fun pronunciation kv =>
       Str.replaceAll (fst kv) (" " ++ snd kv ++ " ")%string pronunciation)
    NUMBERS s.

Definition lookup_callsign (key : string) : option string :=
  option_map snd (find (fun kv => String.eqb (fst kv) key) callsigns).

Definition pronounce (airline : Airline) : option string :=
  match airline with
  | Code a =>
      if Str.endsWith a "-" then
        Some (Str.toLowerCase
                (Re.collapse_spaces (Re.trim (spell_numbers (Str.drop_last a)))))
      else if Str.includes a "-" then None
      else
        match lookup_callsign (Str.toUpperCase a) with
        | Some p => Some p
        | None =>
            Some (join " " (map phonetic (Str.split_chars (Str.toUpperCase a))))
        end
  | Null => None
  | Undefined => None (* not reached: such flights are skipped *)
  end.

(** The predicate of [merged.find(...)]. *)
Definition belongs (flight : Flight.t) (d : Direction.t) (m : Cluster.t)
  : bool :=
  airline_eqb (Cluster.airline m) (Flight.airline flight)
  && set_has String.eqb (Cluster.type m) (Flight.type flight)
  && set_has Direction.eqb (Cluster.direction m) d.

(** [existing.flights.push(flight); existing.type.add(flight.type);
    existing.direction.add(direction)]. *)
Definition absorb (flight : Flight.t) (d : Direction.t) (m : Cluster.t)
  : Cluster.t :=
  Cluster.make (Cluster.airline m)
    (set_add String.eqb (Cluster.type m) (Flight.type flight))
    (set_add Direction.eqb (Cluster.direction m) d)
    (Cluster.flights m ++ [flight])
    (Cluster.score m) (Cluster.pronunciation m).

Definition new_cluster (flight : Flight.t) (d : Direction.t) : Cluster.t :=
  Cluster.make (Flight.airline flight) [Flight.type flight] [d] [flight]
    Num.NaN (pronounce (Flight.airline flight)).

(** The object that [find] returns is the one in the array: mutating it
    updates the first entry that satisfies the predicate. *)
Fixpoint update_first (p : Cluster.t -> bool) (f : Cluster.t -> Cluster.t)
  (l : list Cluster.t) : list Cluster.t :=
  match l with
  | [] => []
  | m :: l' => if p m then f m :: l' else m :: update_first p f l'
  end.

(** One iteration of [for (const flight of flights.values())]. *)
Definition group_flight (merged : list Cluster.t) (flight : Flight.t)
  : list Cluster.t :=
  match Flight.airline flight with
  | Undefined => merged
  | _ =>
      let d := direction flight in
      match find (belongs flight d) merged with
      | Some _ => update_first (belongs flight d) (absorb flight d) merged
      | None => merged ++ [new_cluster flight d]
      end
  end.

Definition group (flights : list Flight.t) : list Cluster.t :=
  fold_left group_flight flights [].

(** [Math.max(...merged.map(m => m.flights.length))], on the lengths as
    natural numbers; with no cluster at all the source has [-Infinity],
    which nothing then reads. *)
Definition maxFlights (merged : list Cluster.t) : nat :=
  list_max (map (fun m => List.length (Cluster.flights m)) merged).

(** [Math.round((length / maxFlights) * 1000) / 100]. *)
Definition score_of (length maxFlights : nat) : Num.number :=
  Num.div
    (Num.round
       (Num.mul (Num.div (Num.of_nat length) (Num.of_nat maxFlights))
          (Num.of_Z 1000)))
    (Num.of_Z 100).

Definition set_score (max : nat) (m : Cluster.t) : Cluster.t :=
  Cluster.make (Cluster.airline m) (Cluster.type m) (Cluster.direction m)
    (Cluster.flights m)
    (score_of (List.length (Cluster.flights m)) max)
    (Cluster.pronunciation m).

Definition scored (merged : list Cluster.t) : list Cluster.t :=
  map (set_score (maxFlights merged)) merged.

(** [!m.airline?.endsWith("-")]. *)
Definition no_trailing_dash (a : Airline) : bool :=
  match a with
  | Code s => negb (Str.endsWith s "-")
  | _ => true
  end.

(** [Array.from(callsigns.values()).includes(p)]. *)
Definition known_pronunciation (p : string) : bool :=
  existsb (fun kv => String.eqb (snd kv) p) callsigns.

(** The condition of the warning, in the last revision of [cli.ts]. *)
Definition warns (m : Cluster.t) : bool :=
  match Cluster.pronunciation m with
  | None => false
  | Some p =>
      Num.geb (Cluster.score m) Num.lit_0_005
      && no_trailing_dash (Cluster.airline m)
      && negb (known_pronunciation p)
  end.

(** The same condition in the revision before, which read
    [m.score > 0 && m.score <= 0.005]. *)
Definition warns_prior (m : Cluster.t) : bool :=
  match Cluster.pronunciation m with
  | None => false
  | Some p =>
      Num.gtb (Cluster.score m) (Num.of_Z 0)
      && Num.leb (Cluster.score m) Num.lit_0_005
      && no_trailing_dash (Cluster.airline m)
      && negb (known_pronunciation p)
  end.

(** [`${m.airline}`]. *)
Definition airline_text (a : Airline) : string :=
  match a with
  | Code s => s
  | Null => "null"
  | Undefined => "undefined"
  end.

Definition warning (m : Cluster.t) : string :=
  ("WARNING! " ++ airline_text (Cluster.airline m)
   ++ ": no pronunciation available" ++ String (ascii_of_nat 10) EmptyString)%string.

(** What the scoring loop writes to [process.stderr]. *)
Definition warnings (ms : list Cluster.t) : list string :=
  map warning (filter warns ms).

(** The comparators of the two sorts. *)
Definition by_airline (a b : Cluster.t) : comparison :=
  (localeCompare (airline_text (Cluster.airline a))
     (airline_text (Cluster.airline b)) ?= 0)%Z.

Definition by_score (a b : Cluster.t) : comparison :=
  Num.sign (Num.sub (Cluster.score b) (Cluster.score a)).

Definition listed (m : Cluster.t) : bool :=
  Num.geb (Cluster.score m) Num.lit_0_005.

Definition has_code (m : Cluster.t) : bool :=
  match Cluster.airline m with Code _ => true | _ => false end.

(** [merged.filter(...).sort(...).sort(...)].  [a.airline.localeCompare]
    throws on a [null] airline, and which pairs a sort compares is left to
    the engine: the embedding describes the listing of clusters that all
    have an airline code, and is [None] otherwise. *)
Definition survivors (ms : list Cluster.t) : option (list Cluster.t) :=
  let kept := filter listed ms in
  if forallb has_code kept
  then Some (js_sort by_score (js_sort by_airline kept))
  else None.

Definition by_locale (a b : string) : comparison :=
  (localeCompare a b ?= 0)%Z.

(** The line of an entry. *)
Definition line (entry : Cluster.t) : string :=
  (String (ascii_of_nat 9) EmptyString
  ++ airline_text (Cluster.airline entry) ++ ", "
  ++ toFixed2 (Cluster.score entry) ++ ", "
  ++ Str.toLowerCase (join "/" (js_sort by_locale (Cluster.type entry)))
  ++ ", "
  ++ match Cluster.pronunciation entry with None => "0" | Some p => p end
  ++ ", "
  ++ Str.toLowerCase
       (join "" (js_sort by_locale (map Direction.name (Cluster.direction entry)))))%string.

Definition lines (ms : list Cluster.t) : option (list string) :=
  option_map (map line) (survivors ms).

(** What the action writes to [process.stdout]. *)
Definition listing (ms : list Cluster.t) : option string :=
  option_map
    (fun ls => (join (String (ascii_of_nat 10) EmptyString) ls
                ++ String (ascii_of_nat 10) EmptyString)%string)
    (lines ms).

(** The standard error and the standard output of [gen] on the loaded
    flights. *)
Definition gen (flights : list Flight.t) : list string * option string :=
  let ms := scored (group (normalise flights)) in
  (warnings ms, listing ms).

End Gen.

(* ================================================================== *)
(** ** Specification-side vocabulary *)






(** The sentences of the specification on the normaliser, in its words:
    the airline-callsign pattern "matched case-insensitively", tail and
    callsign "equal after removing all dashes", and "the longest prefix of
    the list that is a case-insensitive prefix of the tail". *)
Definition airline_callsign_ignoring_case (callsign : string) : bool :=
  Re.airline_callsign (Str.toUpperCase callsign).



Definition prefix_ignoring_case (p s : string) : bool :=
  Str.startsWith (Str.toUpperCase s) (Str.toUpperCase p).

Definition longest_prefix (prefixes : list string) (tail : string)
  : option string :=
  fold_left
    (fun best p =>
       if prefix_ignoring_case p tail then
         match best with
         | Some b => if String.length b <? String.length p then Some p else best
         | None => Some p
         end
       else best)
    prefixes None.

(** A cluster whose type set and direction set are the singletons of the
    type and the direction of its first member, the flight that seeded it. *)
Definition seeded (direction : Flight.t -> Direction.t) (m : Cluster.t) : Prop :=
  exists seed rest,
    Cluster.flights m = seed :: rest
    /\ Cluster.airline m = Flight.airline seed
    /\ Cluster.type m = [Flight.type seed]
    /\ Cluster.direction m = [direction seed].

Section ScoreTable.
Local Open Scope Z_scope.

(** The score of [k] hundredths: the number nearest to [k / 100]. *)
Definition hundredths (k : Z) : Num.number := Num.div (Num.of_Z k) (Num.of_Z 100).

(** The table of the 1001 values a score can take. *)
Definition upto_1000 : list Z := map Z.of_nat (seq 0 1001).

(** A positive normal number, and a number that is [+0] or such a one; a
    number that is a zero or positive and finite. *)
Definition normal_positive (x : Num.number) : bool :=
  match x with
  | S754_finite false m e =>
      (2 ^ 52 <=? Z.pos m) && (Z.pos m <? 2 ^ 53) && (-1074 <=? e) && (e <=? 971)
  | _ => false
  end.

Definition zero_or_normal (x : Num.number) : bool :=
  match x with
  | S754_zero false => true
  | _ => normal_positive x
  end.


(** What the table of the 1001 scores is checked for: where the score
    stands against [0.005], [0] and [10], its shape, and that the next
    score is larger. *)
Definition hundredths_ok (k : Z) : bool :=
  let x := hundredths k in
  Bool.eqb (Num.geb x Num.lit_0_005) (1 <=? k)
  && Num.leb (Num.of_Z 0) x && Num.leb x (Num.of_Z 10)
  && (if k =? 0 then match x with S754_zero false => true | _ => false end
      else normal_positive x)
  && negb (Num.gtb x (Num.of_Z 0) && Num.leb x Num.lit_0_005)
  && Bool.eqb (Num.ltb x Num.lit_0_005) (k =? 0)
  && (if k =? 1000 then true
      else match SFcompare x (hundredths (k + 1)) with
           | Some Lt => true
           | _ => false
           end).

End ScoreTable.

(** A flight of the examples: only identification matters. *)
Definition nowhere : Location :=
  mkLocation "" (S754_zero false) (S754_zero false).

Definition sample_flight (id : Z) (tail : option string) (type : string)
  (airline : Airline) (callsign : option string) : Flight.t :=
  Flight.make id 0 tail type airline callsign nowhere nowhere None.

(** The order a stable sort by [cmp] gives to a list that was in the
    order [R]: by [cmp] first, and by [R] between elements that [cmp]
    holds equal. *)
Definition then_by {A : Type} (cmp : A -> A -> comparison)
  (R : A -> A -> Prop) (a b : A) : Prop :=
  cmp a b = Lt \/ (cmp a b = Eq /\ R a b).

(** The number of flights held by the clusters. *)
Definition members (merged : list Cluster.t) : nat :=
  list_sum (map (fun m => List.length (Cluster.flights m)) merged).

(** The flights of a cluster are flights of [done] with a defined airline. *)
Definition drawn_from (done : list Flight.t) (m : Cluster.t) : Prop :=
  forall f, In f (Cluster.flights m) ->
            In f done /\ Flight.airline f <> Undefined.


(** Five flights of three airlines, two of them as busy as each other. *)
Definition three_airlines : list Flight.t :=
  [ sample_flight 1 None "A320" (Code "BAW") None;
    sample_flight 2 None "B738" (Code "RYR") None;
    sample_flight 3 None "A320" (Code "BAW") None;
    sample_flight 4 None "A319" (Code "AFR") None;
    sample_flight 5 None "A319" (Code "AFR") None ].



(** A comparator for the examples: the order of the character codes. *)
Definition code_order (a b : string) : Z :=
  match String.compare a b with
  | Lt => (-1)%Z
  | Eq => 0%Z
  | Gt => 1%Z
  end.

(* ================================================================== *)
(** ** [printTable] *)

(** The escape sequences of [cli.ts]. *)
Definition ESC : ascii := ascii_of_nat 27.
Definition bold : string := String ESC "[1m".
Definition dim : string := String ESC "[2m".
Definition brightBlack : string := String ESC "[90m".
Definition brightGreen : string := String ESC "[92m".
Definition brightMagenta : string := String ESC "[95m".
Definition reset : string := String ESC "[0m".

(** The box-drawing characters U+2502, U+2500 and U+253C, by their UTF-8
    bytes: no length is taken of them. *)
Definition box (last : nat) : string :=
  String (ascii_of_nat 226)
    (String (ascii_of_nat 148) (String (ascii_of_nat last) EmptyString)).
Definition vertical : string := box 130.
Definition horizontal : string := box 128.
Definition crossing : string := box 188.

Module Ansi.

(** What [.] does not match: the line terminators. *)
Definition is_line_terminator (c : ascii) : bool :=
  let n := nat_of_ascii c in (n =? 10) || (n =? 13).

(** [[0-9;]*m] at the head of [l], giving what follows the match.  No
    character of the class is an [m], so the longest run is the only one
    that [m] can follow. *)
Fixpoint parameters_m (l : list ascii) : option (list ascii) :=
  match l with
  | c :: l' =>
      if Str.is_digit c || Ascii.eqb c ";" then parameters_m l'
      else if Ascii.eqb c "m" then Some l'
      else None
  | [] => None
  end.

(** [.*?\x1b\\] at the head of [l]: the lazy star stops at the first
    [ESC \], and no line terminator stands before it. *)
Fixpoint until_terminator (l : list ascii) : option (list ascii) :=
  match l with
  | a :: l' =>
      match l' with
      | b :: l'' =>
          if Ascii.eqb a ESC && Ascii.eqb b "\" then Some l''
          else if is_line_terminator a then None
          else until_terminator l'
      | [] => None
      end
  | [] => None
  end.

(** The three alternatives, after the [ESC] that each starts with:
    [\[[0-9;]*m], [\]8;;.*?\x1b\\] and [\][0-9]{1,2};.*?\x1b\\]. *)
Definition alternative_1 (l : list ascii) : option (list ascii) :=
  match l with
  | c :: l' => if Ascii.eqb c "[" then parameters_m l' else None
  | [] => None
  end.

Definition alternative_2 (l : list ascii) : option (list ascii) :=
  match l with
  | a :: b :: c :: d :: l' =>
      if Ascii.eqb a "]" && Ascii.eqb b "8" && Ascii.eqb c ";" && Ascii.eqb d ";"
      then until_terminator l'
      else None
  | _ => None
  end.

(** [[0-9]{1,2}] takes two digits when it can; it gives one back when
    what follows the two is not a [;] or has no terminator, and then the
    second digit is not the [;] that must follow the first. *)
Definition alternative_3 (l : list ascii) : option (list ascii) :=
  match l with
  | a :: d1 :: l1 =>
      if Ascii.eqb a "]" && Str.is_digit d1 then
        match l1 with
        | d2 :: l2 =>
            if Str.is_digit d2 then
              match l2 with
              | s :: l3 => if Ascii.eqb s ";" then until_terminator l3 else None
              | [] => None
              end
            else if Ascii.eqb d2 ";" then until_terminator l2
            else None
        | [] => None
        end
      else None
  | _ => None
  end.

(** A match of [ansiRegex] at the head of [l]: what follows it. *)
Definition match_here (l : list ascii) : option (list ascii) :=
  match l with
  | e :: l' =>
      if Ascii.eqb e ESC then
        match alternative_1 l' with
        | Some rest => Some rest
        | None =>
            match alternative_2 l' with
            | Some rest => Some rest
            | None => alternative_3 l'
            end
        end
      else None
  | [] => None
  end.

(** [str.replace(ansiRegex, "")] with the [g] flag: the matches are
    removed from left to right; [fuel] bounds the number of steps. *)
Fixpoint strip (fuel : nat) (l : list ascii) : list ascii :=
  match fuel with
  | O => l
  | S fuel' =>
      match l with
      | [] => []
      | c :: l' =>
          match match_here l with
          | Some rest => strip fuel' rest
          | None => c :: strip fuel' l'
          end
      end
  end.

End Ansi.

Definition stripAnsi (str : string) : string :=
  Str.join_chars (Ansi.strip (String.length str) (Str.split_chars str)).

(** [s.repeat(count)] for an integer [count]: a [RangeError] when it is
    negative. *)
Definition repeat_string (s : string) (count : Z) : option string :=
  if (count <? 0)%Z then None
  else Some (String.concat "" (repeat s (Z.to_nat count))).

(** [pad(text, width)]. *)
Definition pad (text : string) (width : nat) : option string :=
  let visibleLength := String.length (stripAnsi text) in
  option_map (fun spaces => (text ++ spaces)%string)
    (repeat_string " " (Z.of_nat width - Z.of_nat visibleLength)).

(** An object whose members are strings, keys in insertion order, as the
    [table] command builds them. *)
Definition DataRow : Set := list (string * string).

(** [String(obj[h] ?? "")]. *)
Definition member (obj : DataRow) (h : string) : string :=
  match find (fun kv => String.eqb (fst kv) h) obj with
  | Some kv => snd kv
  | None => EmptyString
  end.

(** What [printTable] has written with [console.log] when it returns, or
    when [repeat] throws. *)
Inductive Printed : Set :=
| Returned (lines : list string)
| Threw (lines : list string).

(** [cells.map((cell, i) => pad(cell, colWidths[i]))]: [None] when a call
    of [pad] throws. *)
Fixpoint pad_all (cells : list string) (widths : list nat)
  : option (list string) :=
  match cells, widths with
  | cell :: cells', width :: widths' =>
      match pad cell width with
      | Some padded => option_map (cons padded) (pad_all cells' widths')
      | None => None
      end
  | _, _ => Some []
  end.

Definition cell_separator : string :=
  (" " ++ brightBlack ++ vertical ++ reset ++ " ")%string.

Definition headers_of (data : list DataRow) : list string :=
  match data with
  | first :: _ => map fst first
  | [] => []
  end.

Definition rows_of (data : list DataRow) : list (list string) :=
  map (fun obj => map (member obj) (headers_of data)) data.

(** [Math.max(stripAnsi(h).length, ...rows.map(r => stripAnsi(r[i]).length))]
    for each header [h] of index [i]. *)
Definition colWidths (headers : list string) (rows : list (list string))
  : list nat :=
  map (fun ih =>
         list_max
           (String.length (stripAnsi (snd ih))
            :: map (fun r => String.length (stripAnsi (nth (fst ih) r EmptyString)))
                 rows))
    (combine (seq 0 (List.length headers)) headers).

(** [rows.forEach(row => console.log(...))] after [printed]. *)
Fixpoint print_rows (widths : list nat) (rows : list (list string))
  (printed : list string) : Printed :=
  match rows with
  | [] => Returned printed
  | row :: rows' =>
      match pad_all row widths with
      | Some cells =>
          print_rows widths rows' (printed ++ [join cell_separator cells])
      | None => Threw printed
      end
  end.

Definition printTable (data : list DataRow) : Printed :=
  match data with
  | [] => Returned ["No data to display."]
  | _ :: _ =>
      let headers := headers_of data in
      let rows := rows_of data in
      let widths := colWidths headers rows in
      match pad_all (map (fun h => (bold ++ h ++ reset)%string) headers) widths with
      | None => Threw []
      | Some cells =>
          let headerLine := join cell_separator cells in
          let separator :=
            (join (horizontal ++ crossing ++ horizontal)
               (map (fun w =>
                       (brightBlack
                        ++ String.concat "" (repeat horizontal w))%string)
                  widths)
             ++ reset)%string in
          print_rows widths rows [headerLine; separator]
      end
  end.

(* ================================================================== *)
(** ** The [table] command *)

(** [program.error(message)] ends the process: a computation gives its
    result, or the message it exits with, or throws an exception that
    nothing catches. *)
Inductive Outcome (A : Type) : Type :=
| Done (a : A)
| Exit (message : string)
| Throws.

Arguments Done {A} a.
Arguments Exit {A} message.
Arguments Throws {A}.

Inductive IntegerOrInfinity : Set :=
| MinusInfinity
| Integer (z : Z)
| PlusInfinity.

(** ToIntegerOrInfinity of ECMAScript on a number: [NaN] and the zeros
    give 0, a finite number is truncated towards zero. *)
Definition ToIntegerOrInfinity (x : Num.number) : IntegerOrInfinity :=
  match x with
  | S754_nan | S754_zero _ => Integer 0
  | S754_infinity false => PlusInfinity
  | S754_infinity true => MinusInfinity
  | S754_finite s m e =>
      Integer
        (cond_Zopp s
           (if (0 <=? e)%Z then (Z.pos m * 2 ^ e)%Z
            else (Z.pos m / 2 ^ (- e))%Z))
  end.

(** [l.slice(0, end)]: an [end] below zero counts from the end of the
    array. *)
Definition slice_0 {A : Type} (l : list A) (end_ : Num.number) : list A :=
  let len := Z.of_nat (List.length l) in
  let final :=
    match ToIntegerOrInfinity end_ with
    | MinusInfinity => 0%Z
    | Integer relativeEnd =>
        if (relativeEnd <? 0)%Z then Z.max (len + relativeEnd) 0
        else Z.min relativeEnd len
    | PlusInfinity => len
    end in
  firstn (Z.to_nat final) l.

Module Table.
(** The options of the command, as [commander] hands them over: the text
    of [--after], [--before] and [--limit] when given, and [--reverse]. *)
Record options : Set := make {
  after : option string;
  before : option string;
  limit : option string;
  reverse : bool
}.
End Table.

(** The comparator [(a, b) => a.time.getTime() - b.time.getTime()], by
    its sign: time values are integers, which numbers hold exactly, and
    the difference of two numbers has the sign of their order. *)
Definition by_time (a b : Flight.t) : comparison :=
  (Flight.time a ?= Flight.time b)%Z.

(** The predicate of the filter; [None] is [null]. *)
Definition in_window (after before : option Z) (f : Flight.t) : bool :=
  match after with
  | None => true
  | Some t => (t <=? Flight.time f)%Z
  end
  && match before with
     | None => true
     | Some t => (Flight.time f <=? t)%Z
     end.

Section TableCommand.

(** [new Date(text).getTime()], [None] for [NaN]; [Number(text)]; and
    the object that [map] builds of a flight. *)
Variable Date_of_string : string -> option Z.
Variable Number_of_string : string -> Num.number.
Variable row : Flight.t -> DataRow.

(** [Array.from(flights.values()).sort(...).filter(...).slice(0, limit)]. *)
Definition table_flights (after before : option Z) (limit : Num.number)
  (flights : list Flight.t) : list Flight.t :=
  slice_0 (filter (in_window after before) (js_sort by_time flights)) limit.

(** [data], after [if (options.reverse) data.reverse()]. *)
Definition table_rows (after before : option Z) (limit : Num.number)
  (reverse : bool) (flights : list Flight.t) : list DataRow :=
  let data := map row (table_flights after before limit flights) in
  if reverse then rev data else data.

(** The date of an option: [null] when the option is not given, and the
    text that [new Date] does not understand. *)
Definition date_option (text : option string) : Outcome (option Z) :=
  match text with
  | None => Done None
  | Some s =>
      match Date_of_string s with
      | Some t => Done (Some t)
      | None => Exit ("Invalid date: " ++ s)
      end
  end.

Definition limit_option (text : option string) : Num.number :=
  match text with
  | None => S754_infinity false
  | Some s => Number_of_string s
  end.

(** The action of the command on the loaded flights. *)
Definition table (o : Table.options) (flights : list Flight.t)
  : Outcome Printed :=
  match date_option (Table.after o) with
  | Exit message => Exit message
  | Throws => Throws
  | Done after =>
      match date_option (Table.before o) with
      | Exit message => Exit message
      | Throws => Throws
      | Done before =>
          Done (printTable
                  (table_rows after before (limit_option (Table.limit o))
                     (Table.reverse o) flights))
      end
  end.

End TableCommand.

(* ================================================================== *)
(** ** The [flow] command *)

(** The truth value of a number: the zeros and [NaN] are false. *)
Definition truthy (x : Num.number) : bool :=
  match x with
  | S754_zero _ | S754_nan => false
  | _ => true
  end.

Module WeekDay.
(** An entry of the [Map] [weekDays]: the name of the day, and the
    triple of the flights, of the hours counted, and of [getUTCDay()]. *)
Record t : Set := make {
  key : string;
  flights : Num.number;
  count : Num.number;
  day : Num.number
}.
End WeekDay.

(** The comparator of the sort of [weekDays.entries()]:
    [(a[1][2] && !b[1][2]) ? -1 : (!a[1][2] && b[1][2]) ? 1
     : a[1][2] - b[1][2]], by its sign. *)
Definition by_weekday (a b : WeekDay.t) : comparison :=
  if truthy (WeekDay.day a) && negb (truthy (WeekDay.day b)) then Lt
  else if negb (truthy (WeekDay.day a)) && truthy (WeekDay.day b) then Gt
  else Num.sign (Num.sub (WeekDay.day a) (WeekDay.day b)).

(** The place of a day of the week, Sunday being 0, in a week that starts
    on Monday. *)
Definition monday_first (d : Z) : Z := ((d + 6) mod 7)%Z.

(** An entry whose day of the week is the number of [d], from 0 to 6. *)
Definition on_day (a : WeekDay.t) (d : Z) : Prop :=
  (0 <= d <= 6)%Z /\ WeekDay.day a = Num.of_Z d.





Section Flow.

(** [helicopters.json], and the methods of [Date] that the loop calls on
    the time of a flight: [toISOString().split("T")[0]] and
    [getUTCHours()]. *)
Variable helicopters : list string.
Variable isoDate : Z -> string.
Variable utcHours : Z -> Z.






End Flow.

(* ================================================================== *)
(** ** Loading flights *)

(** What [JSON.parse] returns. *)
#[local] Unset Elimination Schemes.
Inductive Json : Set :=
| JNull
| JBoolean (b : bool)
| JNumber (n : Num.number)
| JString (s : string)
| JArray (items : list Json)
| JObject (members : list (string * Json)).

(** A path as [fs.stat] finds it: nothing that it can stat, a file with
    its contents, or a directory with its entries in the order of
    [fs.readdir]. *)
Inductive Node : Set :=
| Missing (message : string)
| File (contents : string)
| Directory (entries : list (string * Node)).
#[local] Set Elimination Schemes.

(** [s.split(sep)] for a separator of one character. *)
Fixpoint split_on (sep : ascii) (s : string) : list string :=
  match s with
  | EmptyString => [EmptyString]
  | String c s' =>
      if Ascii.eqb c sep then EmptyString :: split_on sep s'
      else
        match split_on sep s' with
        | first :: rest => String c first :: rest
        | [] => [String c EmptyString]
        end
  end.

Definition line_feed : ascii := ascii_of_nat 10.

(** The decimal text of a natural number. *)
Definition decimal (n : nat) : string :=
  DecimalString.NilZero.string_of_uint (Nat.to_uint n).

(** A [Map] from identifiers to flights, in insertion order. *)
Definition FlightMap : Set := list (Z * Flight.t).

(** [flights.set(key, value)]: the value of a key that is there is
    replaced where it stands. *)
Fixpoint map_set (flights : FlightMap) (key : Z) (value : Flight.t)
  : FlightMap :=
  match flights with
  | [] => [(key, value)]
  | (k, v) :: rest =>
      if (k =? key)%Z then (key, value) :: rest
      else (k, v) :: map_set rest key value
  end.

(** [flights.has(key)] and [flights.get(key)]. *)
Definition map_has (flights : FlightMap) (key : Z) : bool :=
  existsb (fun kv => (fst kv =? key)%Z) flights.

Definition map_get (flights : FlightMap) (key : Z) : option Flight.t :=
  option_map snd (find (fun kv => (fst kv =? key)%Z) flights).

(** [for (const flight of loaded) flights.set(flight.id, flight)]. *)
Definition set_all (flights : FlightMap) (loaded : list Flight.t) : FlightMap :=
  fold_left (fun m flight => map_set m (Flight.id flight) flight) loaded flights.

(** The last flight of a list that has a given identifier. *)
Definition last_with (id : Z) (loaded : list Flight.t) : option Flight.t :=
  find (fun flight => (Flight.id flight =? id)%Z) (rev loaded).

(** [for (const dirent of entries) for (const flight of await
    load(path.join(file, dirent), ++_currentDepth)) flights.push(flight)]:
    the counter is incremented before each call. *)
Fixpoint load_entries (A : Type)
  (load : string -> A -> nat -> Outcome (list Flight.t))
  (path_join : string -> string -> string) (file : string)
  (entries : list (string * A)) (_currentDepth : nat)
  (flights : list Flight.t) : Outcome (list Flight.t) :=
  match entries with
  | [] => Done flights
  | (dirent, child) :: rest =>
      match load (path_join file dirent) child (S _currentDepth) with
      | Done loaded =>
          load_entries A load path_join file rest (S _currentDepth)
            (flights ++ loaded)
      | Exit message => Exit message
      | Throws => Throws
      end
  end.

Arguments load_entries {A} load path_join file entries _currentDepth flights.

Section Loading.

(** [JSON.parse], giving the value or the message of the [SyntaxError];
    the flight that [new Flight(flight.id, new Date(flight.time), ...,
    new Location(flight.to.name, ...), ..., flight.bound)] builds of a
    parsed record, [None] when reading a member of the record throws; and
    [path.join]. *)
Variable JSON_parse : string -> Json + string.
Variable construct : Json -> option Flight.t.
Variable path_join : string -> string -> string.

(** [for (const flight of rawFlights) flights.push(new Flight(...))]. *)
Fixpoint construct_all (rawFlights : list Json) : Outcome (list Flight.t) :=
  match rawFlights with
  | [] => Done []
  | raw :: rest =>
      match construct raw with
      | None => Throws
      | Some flight =>
          match construct_all rest with
          | Done flights => Done (flight :: flights)
          | Exit message => Exit message
          | Throws => Throws
          end
      end
  end.

(** The loop over the lines of a file that is not one JSON text, from
    the line of index [i]. *)
Fixpoint parse_lines (file : string) (lines : list string) (i : nat)
  (rawFlights : list Json) : Outcome (list Json) :=
  match lines with
  | [] => Done rawFlights
  | l :: rest =>
      let line := Re.trim l in
      if String.eqb line EmptyString then parse_lines file rest (S i) rawFlights
      else
        match JSON_parse line with
        | inl parsed => parse_lines file rest (S i) (rawFlights ++ [parsed])
        | inr message =>
            Exit (file ++ ":" ++ decimal (i + 1) ++ ": " ++ message)
        end
  end.

(** The records of a file: those of the array that it holds, the one
    value that it holds, or the values of its lines. *)
Definition raw_flights (file contents : string) : Outcome (list Json) :=
  match JSON_parse contents with
  | inl parsed =>
      Done match parsed with
           | JArray items => items
           | _ => [parsed]
           end
  | inr message =>
      let lines := split_on line_feed (Re.trim contents) in
      if List.length lines =? 1 then Exit (file ++ ": " ++ message)
      else parse_lines file lines 0 []
  end.

Definition read_file (file contents : string) : Outcome (list Flight.t) :=
  match raw_flights file contents with
  | Done rawFlights => construct_all rawFlights
  | Exit message => Exit message
  | Throws => Throws
  end.

(** [loadFlightsFromFs(file, _currentDepth)], [node] being what is at
    [file]. *)
Fixpoint loadFlightsFromFs (file : string) (node : Node) (_currentDepth : nat)
  : Outcome (list Flight.t) :=
  match node with
  | Missing message => Exit (file ++ ": " ++ message)
  | Directory entries =>
      if 5 <? _currentDepth
      then Exit (file ++ ": maximum sub-directory depth reached")
      else load_entries loadFlightsFromFs path_join file entries _currentDepth []
  | File contents => read_file file contents
  end.

(** [for (const flight of rawFlights)] on a value: an array gives its
    items, a string its characters, and nothing else can be iterated. *)
Definition iterate (rawFlights : Json) : option (list Json) :=
  match rawFlights with
  | JArray items => Some items
  | JString s =>
      Some (map (fun c => JString (String c EmptyString)) (Str.split_chars s))
  | _ => None
  end.

(** The flights of the standard input. *)
Definition load_stdin (contents : string) : Outcome (list Flight.t) :=
  match JSON_parse contents with
  | inr message => Exit ("stdin: " ++ message)
  | inl rawFlights =>
      match iterate rawFlights with
      | Some items => construct_all items
      | None => Throws
      end
  end.

(** The standard input and the file system. *)
Variable stdin : string.
Variable fs : string -> Node.

(** The loop of [loadFlights] over the paths that are left, [flights]
    being the [Map] so far. *)
Fixpoint load_paths (paths : list string) (flights : FlightMap)
  : Outcome FlightMap :=
  match paths with
  | [] => Done flights
  | path :: rest =>
      match (if String.eqb path "-" then load_stdin stdin
             else loadFlightsFromFs path (fs path) 0) with
      | Done loaded => load_paths rest (set_all flights loaded)
      | Exit message => Exit message
      | Throws => Throws
      end
  end.

(** [loadFlights(new Set(p))]: a path given twice is loaded once. *)
Definition loadFlights (p : list string) : Outcome FlightMap :=
  load_paths (fold_left (set_add String.eqb) p []) [].

End Loading.

(* ================================================================== *)
(** ** The [fetch] command: what is kept and what is written *)

(** A settled request of [get]: the flights of the page and whether
    there are earlier ones, or a rejection, of which the loop asks
    whether the reason is [null]. *)
Inductive Settled : Set :=
| Fulfilled (page : list Flight.t) (more : bool)
| Rejected (reason_is_null : bool).

(** [for (const flight of page) if (!flights.has(flight.id)) {
    flights.set(flight.id, flight); newlyFetched.push(flight); }]. *)
Fixpoint keep_new (flights : FlightMap) (page : list Flight.t)
  (newlyFetched : list Flight.t) : FlightMap * list Flight.t :=
  match page with
  | [] => (flights, newlyFetched)
  | flight :: rest =>
      if map_has flights (Flight.id flight)
      then keep_new flights rest newlyFetched
      else keep_new (map_set flights (Flight.id flight) flight) rest
             (newlyFetched ++ [flight])
  end.

(** [for (const result of results)]: the loop breaks at the first
    rejection, with what the requests before it have brought; the third
    component is [error !== null]. *)
Fixpoint settle (flights : FlightMap) (results : list Settled)
  (newlyFetched : list Flight.t) : FlightMap * list Flight.t * bool :=
  match results with
  | [] => (flights, newlyFetched, false)
  | Rejected reason_is_null :: _ =>
      (flights, newlyFetched, negb reason_is_null)
  | Fulfilled page _ :: rest =>
      let '(flights', newlyFetched') := keep_new flights page newlyFetched in
      settle flights' rest newlyFetched'
  end.

(** [results.filter(r => r.status === "fulfilled").every(r =>
    r.value.more)] is the conjunction of [result_more]. *)
Definition result_more (result : Settled) : bool :=
  match result with
  | Fulfilled _ more => more
  | Rejected _ => true
  end.

Module Fetch.
(** The [Map] of the flights, the chunks written so far, each a list of
    flights that is written one flight a line, and how the loop stands:
    it goes on, it is over, or it has returned on the error of a
    request. *)
Inductive status : Set := running | finished | failed.

Record state : Set := make {
  flights : FlightMap;
  written : list (list Flight.t);
  stands : status
}.
End Fetch.

(** [if (newlyFetched.length > 0) write(chunk)]. *)
Definition write_chunk (written : list (list Flight.t))
  (newlyFetched : list Flight.t) : list (list Flight.t) :=
  match newlyFetched with
  | [] => written
  | _ :: _ => written ++ [newlyFetched]
  end.

(** The first page of a key. *)
Definition fetch_initial (st : Fetch.state) (page : list Flight.t)
  (more : bool) : Fetch.state :=
  let '(flights', newInitial) := keep_new (Fetch.flights st) page [] in
  Fetch.make flights' (write_chunk (Fetch.written st) newInitial)
    (if more then Fetch.running else Fetch.finished).

(** One turn of [while (more)] on the results of its requests. *)
Definition fetch_round (st : Fetch.state) (results : list Settled)
  : Fetch.state :=
  match Fetch.stands st with
  | Fetch.running =>
      let '(flights', newlyFetched, error) :=
        settle (Fetch.flights st) results [] in
      if error then Fetch.make flights' (Fetch.written st) Fetch.failed
      else
        Fetch.make flights' (write_chunk (Fetch.written st) newlyFetched)
          (if forallb result_more results then Fetch.running
           else Fetch.finished)
  | _ => st
  end.

(** The pages of a key: the first one, then the turns of the loop. *)
Definition fetch_key (st : Fetch.state) (page : list Flight.t) (more : bool)
  (rounds : list (list Settled)) : Fetch.state :=
  fold_left fetch_round rounds (fetch_initial st page more).

(** The keys of the command, each with the pages that the requests
    bring: the loop over the keys ends when a turn has failed. *)
Definition fetch_keys
  (responses : list (list Flight.t * bool * list (list Settled)))
  : Fetch.state :=
  fold_left
    (fun st response =>
       match Fetch.stands st with
       | Fetch.failed => st
       | _ => fetch_key st (fst (fst response)) (snd (fst response))
                (snd response)
       end)
    responses (Fetch.make [] [] Fetch.finished).

(* ================================================================== *)
(** ** [get]: the flights of a page *)

(** A member of a record of the page as [JSON.parse] gives it,
    [MUndefined] when the record has no such member and [MObject] for an
    array or an object. *)
Inductive Member : Set :=
| MUndefined
| MNull
| MBoolean (b : bool)
| MNumber (n : Num.number)
| MString (s : string)
| MObject.

(** [a ?? b]. *)
Definition coalesce (a b : Member) : Member :=
  match a with
  | MUndefined | MNull => b
  | _ => a
  end.

(** TimeClip of ECMAScript, the time value of [new Date(time)] for a
    number [time]. *)
Definition TimeClip (time : Num.number) : Num.number :=
  match time with
  | S754_nan | S754_infinity _ => Num.NaN
  | _ =>
      if Num.gtb (SFabs time) (Num.of_Z 8640000000000000) then Num.NaN
      else
        match ToIntegerOrInfinity time with
        | Integer z => Num.of_Z z
        | _ => Num.NaN
        end
  end.

Module Fetched.
(** The arguments of [new Flight(...)] in [get]; [time] is the time value
    of the [Date]. *)
Record t : Set := make {
  id : Num.number;
  time : Num.number;
  tail : option string;
  type : string;
  airline : option string;
  callsign : option string;
  to : Location;
  from : Location;
  bound : Bound
}.
End Fetched.

(** A member that is a string or [null], as the constructor takes it. *)
Definition string_or_null (m : Member) : option (option string) :=
  match m with
  | MString s => Some (Some s)
  | MNull => Some None
  | _ => None
  end.

(** [new Location(name, lat, lon)] of three members, when [name] is a
    string and the other two are numbers. *)
Definition location_of (name lat lon : Member) : option Location :=
  match name, lat, lon with
  | MString name, MNumber lat, MNumber lon => Some (mkLocation name lat lon)
  | _, _, _ => None
  end.

(** One iteration of [for (const flight of json.list)] on a record that
    is an object, [flight] giving its members: the flight that is pushed,
    [None] on [continue]. *)
Definition accept (departures : bool) (icao : string)
  (flight : string -> Member) : option Fetched.t :=
  match flight "fid" with
  | MNumber id =>
      match (if departures
             then coalesce (coalesce (coalesce (flight "depau") (flight "depeu"))
                              (flight "depsu")) (flight "depsts")
             else coalesce (coalesce (coalesce (flight "arrau") (flight "arreu"))
                              (flight "arrsu")) (flight "arrsts")) with
      | MNumber seconds =>
          let time := TimeClip (Num.mul seconds (Num.of_Z 1000)) in
          match string_or_null (flight "acr") with
          | Some tail =>
              match flight "act" with
              | MString type =>
                  if String.eqb type "GRND"
                     || String.eqb (Str.toLowerCase type) "zzzz"
                  then None
                  else
                    match string_or_null
                            (coalesce
                               (match flight "csalic" with
                                | MUndefined => flight "alic"
                                | csalic => csalic
                                end) MNull) with
                    | Some airline =>
                        match string_or_null
                                (coalesce (coalesce (flight "cs") (flight "fnic"))
                                   (flight "ectlcs")) with
                        | Some callsign =>
                            match location_of (flight "apdstic") (flight "apdstla")
                                    (flight "apdstlo") with
                            | Some to =>
                                match location_of (flight "aporgic")
                                        (flight "aporgla") (flight "aporglo") with
                                | Some from =>
                                    if String.eqb (loc_name to) (loc_name from)
                                    then None
                                    else
                                      Some (Fetched.make id time tail type airline
                                              callsign to from
                                              (if String.eqb (loc_name from) icao
                                               then departure else arrival))
                                | None => None
                                end
                            | None => None
                            end
                        | None => None
                        end
                    | None => None
                    end
              | _ => None
              end
          | None => None
          end
      | _ => None
      end
  | _ => None
  end.

(** The loop: the flights pushed and [oldest], from the records that are
    left, [flights] and [oldest] being what they are so far. *)
Fixpoint get_list (departures : bool) (icao : string)
  (records : list (string -> Member)) (flights : list Fetched.t)
  (oldest : Num.number) : list Fetched.t * Num.number :=
  match records with
  | [] => (flights, oldest)
  | flight :: rest =>
      match accept departures icao flight with
      | None => get_list departures icao rest flights oldest
      | Some f =>
          get_list departures icao rest (flights ++ [f])
            (if Num.ltb (Fetched.time f) oldest then Fetched.time f else oldest)
      end
  end.

(* ================================================================== *)
(** ** Further vocabulary of the properties *)

(** Two flights that agree on everything but the airline. *)
Definition same_but_airline (f g : Flight.t) : Prop :=
  Flight.id g = Flight.id f
  /\ Flight.time g = Flight.time f
  /\ Flight.tail g = Flight.tail f
  /\ Flight.type g = Flight.type f
  /\ Flight.callsign g = Flight.callsign f
  /\ Flight.to g = Flight.to f
  /\ Flight.from g = Flight.from f
  /\ Flight.bound g = Flight.bound f.

(** The flights that the normalising loop leaves in the [Map]. *)
Definition survives (helicopters prefixes : list string) (flight : Flight.t)
  : bool :=
  match snd (normalise_flight helicopters prefixes flight) with
  | Delete => false
  | _ => true
  end.

(** The flights that the grouping loop does not skip. *)
Definition has_airline (flight : Flight.t) : bool :=
  match Flight.airline flight with
  | Undefined => false
  | _ => true
  end.

(** What [merged.find] compares of a cluster. *)
Definition cluster_key (m : Cluster.t)
  : Airline * list string * list Direction.t :=
  (Cluster.airline m, Cluster.type m, Cluster.direction m).

(** [c.toUpperCase().split("").map(c => PHONETIC[c] ?? c).join(" ")]. *)
Definition spelled (code : string) : string :=
  join " " (map phonetic (Str.split_chars (Str.toUpperCase code))).

(** A cluster all of whose flights have its airline, its one type and
    its one direction. *)
Definition uniform (direction : Flight.t -> Direction.t) (m : Cluster.t)
  : Prop :=
  exists t d,
    Cluster.type m = [t] /\ Cluster.direction m = [d]
    /\ forall f, In f (Cluster.flights m) ->
                 Flight.airline f = Cluster.airline m
                 /\ Flight.type f = t /\ direction f = d.



(** [" ".repeat(n)]. *)
Definition spaces (n : nat) : string := String.concat "" (repeat " " n).


(** A [Map] filled with [flights.set(flight.id, flight)]: every key is
    the identifier of its value, and no key comes twice. *)
Definition keyed (flights : FlightMap) : Prop :=
  Forall (fun kv => fst kv = Flight.id (snd kv)) flights
  /\ NoDup (map fst flights).

(** What a path brings. *)
Definition load_path (JSON_parse : string -> Json + string)
  (construct : Json -> option Flight.t)
  (path_join : string -> string -> string) (stdin : string)
  (fs : string -> Node) (path : string) : Outcome (list Flight.t) :=
  if String.eqb path "-" then load_stdin JSON_parse construct stdin
  else loadFlightsFromFs JSON_parse construct path_join path (fs path) 0.

(** An entry of a directory that is a file of which all flights load. *)
Definition loads_as_file (JSON_parse : string -> Json + string)
  (construct : Json -> option Flight.t)
  (path_join : string -> string -> string) (file : string)
  (entry : string * Node)
  (loaded : list Flight.t) : Prop :=
  exists contents,
    snd entry = File contents
    /\ read_file JSON_parse construct (path_join file (fst entry)) contents
       = Done loaded.



(** The entry of a flight in the [Map]. *)
Definition entry (flight : Flight.t) : Z * Flight.t :=
  (Flight.id flight, flight).

(** The flights written are in the [Map] under their identifiers, which
    differ from one another. *)
Definition consistent (st : Fetch.state) : Prop :=
  keyed (Fetch.flights st)
  /\ NoDup (map Flight.id (List.concat (Fetch.written st)))
  /\ Forall (fun flight => In (entry flight) (Fetch.flights st))
       (List.concat (Fetch.written st)).

(** The [Map] holds the flights written, in the order they were
    written, and no other. *)
Definition complete (st : Fetch.state) : Prop :=
  Fetch.flights st = map entry (List.concat (Fetch.written st)).

(** What a step makes of the [Map] and of the chunks: new flights, with
    identifiers that the [Map] did not have, are added to the [Map], and
    written or not. *)
Definition extends (st st' : Fetch.state) (wrote : bool) : Prop :=
  exists new,
    Fetch.flights st' = Fetch.flights st ++ map entry new
    /\ List.concat (Fetch.written st')
       = List.concat (Fetch.written st) ++ (if wrote then new else [])
    /\ NoDup (map Flight.id new)
    /\ Forall (fun flight =>
                 map_has (Fetch.flights st) (Flight.id flight) = false) new.

(** What holds of the state of [fetch] after each step. *)
Definition sound (st : Fetch.state) : Prop :=
  consistent st /\ (Fetch.stands st <> Fetch.failed -> complete st).

(** What [get] has checked of a flight that it returns. *)
Definition checked (icao : string) (f : Fetched.t) : Prop :=
  Fetched.type f <> "GRND"
  /\ Str.toLowerCase (Fetched.type f) <> "zzzz"
  /\ loc_name (Fetched.to f) <> loc_name (Fetched.from f)
  /\ (Fetched.bound f = departure <-> loc_name (Fetched.from f) = icao).

(** A member that is [null] or [undefined]. *)
Definition nullish (m : Member) : Prop := m = MUndefined \/ m = MNull.

(** The member that [get] reads as a string or [null]: what it must be
    for the value [v] to be taken. *)
Definition reads_as (m : Member) (v : option string) : Prop :=
  match v with
  | Some s => m = MString s
  | None => m = MNull
  end.

(* ================================================================== *)
(** ** Stand-ins of the examples *)

(** What the host gives in the examples.  A record of an identifier and
    a type, and a parser that knows a few texts: three JSON texts, and
    the contents of two files of records, named rather than written
    out. *)
Definition record (id : Z) (type : string) : Json :=
  JObject [("id", JNumber (Num.of_Z id)); ("type", JString type)].

Definition parse_example (text : string) : Json + string :=
  if String.eqb text "[]" then inl (JArray [])
  else if String.eqb text "null" then inl JNull
  else if String.eqb text "true" then inl (JBoolean true)
  else if String.eqb text "<monday>"
  then inl (JArray [record 1 "A320"; record 2 "B738"])
  else if String.eqb text "<tuesday>" then inl (JArray [record 1 "A319"])
  else inr "Unexpected token".

(** A flight of a record of [record], and nothing of another value. *)
Definition construct_example (raw : Json) : option Flight.t :=
  match raw with
  | JObject [(_, JNumber id); (_, JString type)] =>
      match ToIntegerOrInfinity id with
      | Integer z => Some (sample_flight z None type Null None)
      | _ => None
      end
  | _ => None
  end.

Definition join_example (a b : string) : string := a ++ "/" ++ b.

(** Two files, and nothing else. *)
Definition fs_example (path : string) : Node :=
  if String.eqb path "monday.json" then File "<monday>"
  else if String.eqb path "tuesday.json" then File "<tuesday>"
  else Missing "ENOENT: no such file or directory".

(** The days of a week as [flow] meets them when the first flight is of
    a Saturday. *)
Definition week_from_saturday : list WeekDay.t :=
  map (fun kd => WeekDay.make (fst kd) (Num.of_Z 1) (Num.of_Z 1)
                   (Num.of_Z (snd kd)))
    [ ("Sat", 6%Z); ("Sun", 0%Z); ("Mon", 1%Z); ("Wed", 3%Z) ].

(** A record of the examples: an arrival at EGLL whose airline members
    are absent, and whose callsign is [null] by [ectlcs], [cs] and [fnic]
    being absent. *)
Definition record_example (name : string) : Member :=
  if String.eqb name "fid" then MNumber (Num.of_Z 7)
  else if String.eqb name "arrsts" then MNumber (Num.of_Z 1700000000)
  else if String.eqb name "acr" then MNull
  else if String.eqb name "act" then MString "A320"
  else if String.eqb name "ectlcs" then MNull
  else if String.eqb name "apdstic" then MString "EGLL"
  else if String.eqb name "aporgic" then MString "LFPG"
  else if String.eqb name "apdstla" || String.eqb name "apdstlo"
          || String.eqb name "aporgla" || String.eqb name "aporglo"
  then MNumber (Num.of_Z 0)
  else MUndefined.

(* ================================================================== *)
(** * Properties *)

(** ** Strings *)


Lemma split_join (l : list ascii) : Str.split_chars (Str.join_chars l) = l.
Proof. apply list_ascii_of_string_of_list_ascii. Qed.




Lemma split_toUpperCase (s : string) :
  Str.split_chars (Str.toUpperCase s) = map Str.upper_char (Str.split_chars s).
Proof. unfold Str.toUpperCase. apply split_join. Qed.


(** ** [tailToCallsign] *)









(** ** The normaliser *)

Lemma callsign_branches_not_regional (flight : Flight.t) :
  fst (callsign_branches flight) <> regional.
Proof.
  unfold callsign_branches.
  destruct (Flight.callsign flight) as [cs|]; [|discriminate].
  destruct (_ || _); [discriminate|].
  destruct (Re.four_letters _); discriminate.
Qed.

(** The claim C3 as the specification words it fails: a lower-case callsign
    of the right shape matches the pattern case-insensitively, and the
    flight is deleted. *)
Lemma airline_callsign_lowercase_deleted :
  let flight := sample_flight 1 (Some "GABCD") "A320" Null (Some "baw123") in
  is_invalid [] flight = false
  /\ same_registration "GABCD" "baw123" = false
  /\ airline_callsign_ignoring_case "baw123" = true
  /\ normalise_flight [] [] flight = (airline_callsign, Delete).
Proof. vm_compute. auto. Qed.

(** C3 (amended). A flight that passes the first test, is not a regional
    registration, has a callsign and has the airline [null] or "{PVT}" is
    decided by the airline-callsign branch: its airline becomes the first
    three characters of the callsign exactly when the callsign matches
    [^[A-Z]{3}\d[A-Z\d]{0,3}$] as written, capitals only, and the flight is
    deleted when it does not. *)
Theorem airline_callsign_branch (helicopters prefixes : list string)
  (flight : Flight.t) (callsign : string)
  (Hvalid : is_invalid helicopters flight = false)
  (Hcallsign : Flight.callsign flight = Some callsign)
  (Hairline : Flight.airline flight = Null \/ Flight.airline flight = Code PVT)
  (Hnot_regional : forall tail, Flight.tail flight = Some tail ->
                                same_registration tail callsign = false) :
  fst (normalise_flight helicopters prefixes flight) = airline_callsign
  /\ (snd (normalise_flight helicopters prefixes flight)
      = Replace (with_airline flight (Str.slice_to 3 callsign))
      <-> Re.airline_callsign callsign = true)
  /\ (Re.airline_callsign callsign = false ->
      snd (normalise_flight helicopters prefixes flight) = Delete).
Proof.
  assert (Hb : normalise_flight helicopters prefixes flight
               = callsign_branches flight).
  { unfold normalise_flight. rewrite Hvalid, Hcallsign.
    destruct (Flight.tail flight) as [tail|]; [|reflexivity].
    now rewrite (Hnot_regional tail eq_refl). }
  rewrite Hb. unfold callsign_branches. rewrite Hcallsign.
  assert (Ha : airline_eqb (Flight.airline flight) (Code PVT)
               || airline_eqb (Flight.airline flight) Null = true).
  { destruct Hairline as [-> | ->]; reflexivity. }
  rewrite Ha. simpl.
  destruct (Re.airline_callsign callsign); simpl; repeat split;
    intros; try reflexivity; discriminate.
Qed.

Lemma airline_callsign_branch_witness :
  let flight := sample_flight 7 (Some "GABCD") "A320" (Code PVT) (Some "BAW12C") in
  fst (normalise_flight ["R44"] ["G"] flight) = airline_callsign
  /\ (snd (normalise_flight ["R44"] ["G"] flight)
      = Replace (with_airline flight (Str.slice_to 3 "BAW12C"))
      <-> Re.airline_callsign "BAW12C" = true)
  /\ (Re.airline_callsign "BAW12C" = false ->
      snd (normalise_flight ["R44"] ["G"] flight) = Delete).
Proof.
  apply (airline_callsign_branch ["R44"] ["G"]
           (sample_flight 7 (Some "GABCD") "A320" (Code PVT) (Some "BAW12C"))
           "BAW12C").
  - reflexivity.
  - reflexivity.
  - right. reflexivity.
  - intros tail H. injection H as <-. reflexivity.
Defined.




(** The claim C5 as the specification words it fails: [find] returns the
    first prefix of the list that the upper-cased tail starts with, not the
    longest one, and a prefix is compared as it is written. *)
Lemma first_prefix_not_longest :
  let flight := sample_flight 1 (Some "NA123") "C172" Null (Some "NA123") in
  fst (normalise_flight [] ["N"; "NA"] flight) = regional
  /\ Str.includes "NA123" "-" = false
  /\ longest_prefix ["N"; "NA"] "NA123" = Some "NA"
  /\ find_prefix ["N"; "NA"] "NA123" = Some "N"
  /\ snd (normalise_flight [] ["N"; "NA"] flight)
     = Replace (with_airline flight "N-A123")
  /\ longest_prefix ["n"] "NA123" = Some "n"
  /\ snd (normalise_flight [] ["n"] flight) = Delete.
Proof. vm_compute. repeat split; reflexivity. Qed.

Lemma find_first_match (A : Type) (p : A -> bool) (l : list A) :
  match find p l with
  | Some x =>
      exists before after,
        l = before ++ x :: after
        /\ p x = true
        /\ Forall (fun y => p y = false) before
  | None => Forall (fun y => p y = false) l
  end.
Proof.
  induction l as [|a l IH]; simpl.
  - constructor.
  - destruct (p a) eqn:Ha.
    + exists [], l. repeat split; auto.
    + destruct (find p l) as [x|].
      * destruct IH as (before & after & -> & Hx & Hb).
        exists (a :: before), after. repeat split; auto.
      * constructor; auto.
Qed.

(** C5 (amended). For a flight of the regional-registration branch whose
    tail has no dash, the normaliser takes the first prefix, in the order
    of the list, that the upper-cased tail starts with: no prefix before it
    in the list matches.  Without such a prefix the flight is deleted;
    otherwise the airline becomes the callsign synthesised from that prefix
    and the rest of the upper-cased tail. *)
Theorem regional_prefix_lookup (helicopters prefixes : list string)
  (flight : Flight.t) (tail : string)
  (Hregional : fst (normalise_flight helicopters prefixes flight) = regional)
  (Htail : Flight.tail flight = Some tail)
  (Hnodash : Str.includes tail "-" = false) :
  match find_prefix prefixes tail with
  | None =>
      Forall (fun p => Str.startsWith (Str.toUpperCase tail) p = false) prefixes
      /\ snd (normalise_flight helicopters prefixes flight) = Delete
  | Some prefix =>
      (exists before after,
          prefixes = before ++ prefix :: after
          /\ Str.startsWith (Str.toUpperCase tail) prefix = true
          /\ Forall (fun p => Str.startsWith (Str.toUpperCase tail) p = false)
               before)
      /\ snd (normalise_flight helicopters prefixes flight)
         = Replace (with_airline flight
                      (tailToCallsign prefix
                         (Str.slice_from (String.length prefix)
                            (Str.toUpperCase tail))))
  end.
Proof.
  assert (Hact : snd (normalise_flight helicopters prefixes flight)
                 = regional_action prefixes flight tail).
  { revert Hregional. unfold normalise_flight.
    destruct (is_invalid helicopters flight); [discriminate|].
    rewrite Htail.
    destruct (Flight.callsign flight) as [cs|].
    - destruct (same_registration tail cs); [reflexivity|].
      intros H. now apply callsign_branches_not_regional in H.
    - intros H. now apply callsign_branches_not_regional in H. }
  rewrite Hact. unfold regional_action. rewrite Hnodash. simpl.
  pose proof (find_first_match _
                (fun p => Str.startsWith (Str.toUpperCase tail) p) prefixes) as H.
  unfold find_prefix.
  destruct (find _ prefixes) as [prefix|]; split; auto.
Qed.

Lemma regional_prefix_lookup_witness :
  let flight := sample_flight 4 (Some "na123") "C172" Null (Some "NA123") in
  (exists before after,
      ["G"; "N"; "NA"] = before ++ "N" :: after
      /\ Str.startsWith (Str.toUpperCase "na123") "N" = true
      /\ Forall (fun p => Str.startsWith (Str.toUpperCase "na123") p = false)
           before)
  /\ snd (normalise_flight ["R44"] ["G"; "N"; "NA"] flight)
     = Replace (with_airline flight
                  (tailToCallsign "N"
                     (Str.slice_from (String.length "N")
                        (Str.toUpperCase "na123")))).
Proof.
  exact (regional_prefix_lookup ["R44"] ["G"; "N"; "NA"]
           (sample_flight 4 (Some "na123") "C172" Null (Some "NA123"))
           "na123" eq_refl eq_refl eq_refl).
Defined.

(** When the list of prefixes is in the order of non-increasing length,
    the first match is also a longest one. *)
Lemma first_prefix_longest_when_sorted (prefixes : list string)
  (tail prefix : string) :
  StronglySorted (fun a b => String.length b <= String.length a) prefixes ->
  find_prefix prefixes tail = Some prefix ->
  forall q, In q prefixes ->
            Str.startsWith (Str.toUpperCase tail) q = true ->
            String.length q <= String.length prefix.
Proof.
  unfold find_prefix. intros HS.
  induction HS as [|a l HS IH Ha]; simpl; [discriminate|].
  destruct (Str.startsWith (Str.toUpperCase tail) a) eqn:Hm.
  - intros E q Hq _. injection E as <-. destruct Hq as [<-|Hq]; [lia|].
    rewrite Forall_forall in Ha. now apply Ha.
  - intros E q [<-|Hq] Hmq; [congruence|]. now apply IH.
Qed.

Example tailToCallsign_examples :
  tailToCallsign "G" "ABCD" = "G-ABCD"
  /\ tailToCallsign "N" "12345" = "N-12345"
  /\ tailToCallsign "n" "a1b2" = "N-A1B2"
  /\ tailToCallsign "d" "e-zz9?9" = "D-A-BC1?2".
Proof. repeat split; reflexivity. Qed.

(** ** The aggregation loop *)

Section Grouping.

Variable callsigns : list (string * string).
Variable NUMBERS : list (string * string).
Variable direction : Flight.t -> Direction.t.

(** The union step of a flight that the cluster accepts adds nothing. *)
Lemma absorb_adds_nothing (flight : Flight.t) (d : Direction.t) (m : Cluster.t) :
  belongs flight d m = true ->
  Cluster.type (absorb flight d m) = Cluster.type m
  /\ Cluster.direction (absorb flight d m) = Cluster.direction m.
Proof.
  unfold belongs, absorb, set_add. simpl.
  intros H. apply andb_prop in H as [H Hd]. apply andb_prop in H as [_ Ht].
  now rewrite Ht, Hd.
Qed.

Lemma absorb_seeded (flight : Flight.t) (d : Direction.t) (m : Cluster.t) :
  belongs flight d m = true -> seeded direction m ->
  seeded direction (absorb flight d m).
Proof.
  intros Hb (seed & rest & Hf & Ha & Ht & Hd).
  destruct (absorb_adds_nothing flight d m Hb) as [Et Ed].
  exists seed, (rest ++ [flight]). rewrite Et, Ed.
  unfold absorb; simpl. rewrite Hf. auto.
Qed.

Lemma update_first_seeded (flight : Flight.t) (d : Direction.t)
  (merged : list Cluster.t) :
  Forall (seeded direction) merged ->
  Forall (seeded direction)
    (update_first (belongs flight d) (absorb flight d) merged).
Proof.
  induction 1 as [|m merged Hm Hr IH]; simpl; [constructor|].
  destruct (belongs flight d m) eqn:Hb; constructor; auto.
  now apply absorb_seeded.
Qed.

Lemma group_flight_seeded (merged : list Cluster.t) (flight : Flight.t) :
  Forall (seeded direction) merged ->
  Forall (seeded direction)
    (group_flight callsigns NUMBERS direction merged flight).
Proof.
  intros H. unfold group_flight.
  assert (Hnew : Forall (seeded direction)
                   (merged ++ [new_cluster callsigns NUMBERS flight (direction flight)])).
  { apply Forall_app. split; [assumption|]. constructor; [|constructor].
    exists flight, []. repeat split. }
  destruct (Flight.airline flight); [assumption| |];
    (destruct (find _ merged); [now apply update_first_seeded | exact Hnew]).
Qed.

Lemma fold_group_seeded (flights : list Flight.t) :
  forall merged,
    Forall (seeded direction) merged ->
    Forall (seeded direction)
      (fold_left (group_flight callsigns NUMBERS direction) flights merged).
Proof.
  induction flights as [|f flights IH]; intros merged H; simpl; auto.
  apply IH. now apply group_flight_seeded.
Qed.

Lemma group_seeded (flights : list Flight.t) :
  Forall (seeded direction) (group callsigns NUMBERS direction flights).
Proof. apply fold_group_seeded. constructor. Qed.

(** C9. After any number [k] of iterations of the grouping loop, and so at
    its end, every cluster has as type set the singleton of the type of its
    first member and as direction set the singleton of that member's
    direction; and the union step of a flight that a cluster accepts leaves
    both sets as they are. *)
Theorem clusters_stay_singletons (flights : list Flight.t) (k : nat) :
  Forall (seeded direction)
    (group callsigns NUMBERS direction (firstn k flights))
  /\ Forall (seeded direction) (group callsigns NUMBERS direction flights)
  /\ forall flight d m,
       belongs flight d m = true ->
       Cluster.type (absorb flight d m) = Cluster.type m
       /\ Cluster.direction (absorb flight d m) = Cluster.direction m.
Proof.
  split; [|split].
  - apply group_seeded.
  - apply group_seeded.
  - apply absorb_adds_nothing.
Qed.

End Grouping.

(** ** Comparisons of numbers *)




(** The literal [0.005] is 0x1.47ae147ae147bp-8; [%] keeps the sign of the
    dividend; [Math.round] takes a tie upwards. *)
Example number_examples :
  Num.lit_0_005 = S754_finite false 5764607523034235 (-60)
  /\ Num.rem (Num.of_Z (-500)) (Num.of_Z 360) = Num.of_Z (-140)
  /\ Num.round (Num.div (Num.of_Z 5) (Num.of_Z 2)) = Num.of_Z 3
  /\ Num.round (Num.div (Num.of_Z (-5)) (Num.of_Z 2)) = Num.of_Z (-2)
  /\ Num.round (Num.div (Num.of_Z (-1)) (Num.of_Z 2)) = S754_zero true.
Proof. vm_compute. repeat split; reflexivity. Qed.

(** ** [Direction.fromBearing] *)

(** Bearings on the four axes and around them; a bearing below -360 keeps
    a negative remainder and falls to N, like [NaN]. *)
Example fromBearing_examples :
  map (fun b => Direction.fromBearing (Num.of_Z b))
    [0; 44; 45; 90; 134; 135; 180; 224; 225; 270; 314; 315; 359; 360;
     -90; -360; -500]%Z
  = [Direction.N; Direction.N; Direction.E; Direction.E; Direction.E;
     Direction.S; Direction.S; Direction.S; Direction.W; Direction.W;
     Direction.W; Direction.N; Direction.N; Direction.N;
     Direction.W; Direction.N; Direction.N]
  /\ Direction.fromBearing Num.NaN = Direction.N.
Proof. vm_compute. split; reflexivity. Qed.


(* ================================================================== *)
(** ** Binary64 arithmetic of the scores *)

(** The score is computed by two roundings, of the quotient and of its
    product by 1000, before [Math.round].  For lengths [n <= m] below 2^53
    the quotient is at most [1 + 2^-52] and the product below 1000.5, so
    [Math.round] returns an integer from 0 to 1000: a score is one of 1001
    numbers, whose table is then checked by computation. *)

Section Binary64.
Local Open Scope Z_scope.

(** ** Binary64 rounding *)

(** The number of binary digits of a mantissa. *)

Lemma digits2_pos_size (p : positive) : digits2_pos p = Pos.size p.
Proof. induction p; simpl; congruence. Qed.

Lemma Zdigits2_log2 (M : Z) : 0 < M -> Zdigits2 M = Z.log2 M + 1.
Proof.
  destruct M as [|p|p]; try lia. intros _. simpl Zdigits2.
  rewrite digits2_pos_size.
  destruct p; simpl Z.log2; simpl Pos.size; lia.
Qed.

Lemma Zdigits2_bounds (M : Z) :
  0 < M -> 1 <= Zdigits2 M /\ 2 ^ (Zdigits2 M - 1) <= M < 2 ^ Zdigits2 M.
Proof.
  intros H. rewrite (Zdigits2_log2 M H).
  pose proof (Z.log2_nonneg M). pose proof (Z.log2_spec M H).
  replace (Z.log2 M + 1 - 1) with (Z.log2 M) by lia.
  replace (Z.log2 M + 1) with (Z.succ (Z.log2 M)) by lia. lia.
Qed.

Lemma Zdigits2_unique (M d : Z) :
  2 ^ (d - 1) <= M < 2 ^ d -> 1 <= d -> Zdigits2 M = d.
Proof.
  intros H Hd.
  assert (0 < M) by (pose proof (Z.pow_pos_nonneg 2 (d - 1)); lia).
  rewrite (Zdigits2_log2 M) by assumption.
  rewrite (Z.log2_unique M (d - 1)); try lia.
  replace (Z.succ (d - 1)) with d by lia. lia.
Qed.

(** Shifting a mantissa right by [n] bits divides it by [2^n]. *)
Lemma shr_1_m (mrs : shr_record) :
  0 <= shr_m mrs -> shr_m (shr_1 mrs) = shr_m mrs / 2.
Proof.
  destruct mrs as [m r s]. simpl. intros H.
  destruct m as [|[p|p|]|p]; cbn [shr_m shr_1]; try lia; try reflexivity.
  - apply Z.div_unique with 1; lia.
  - apply Z.div_unique with 0; lia.
Qed.

Lemma pow2_xO (p : positive) : 2 ^ Z.pos p~0 = 2 ^ Z.pos p * 2 ^ Z.pos p.
Proof. rewrite Pos2Z.inj_xO, <- Z.pow_add_r by lia. f_equal. lia. Qed.

Lemma pow2_xI (p : positive) : 2 ^ Z.pos p~1 = 2 * (2 ^ Z.pos p * 2 ^ Z.pos p).
Proof.
  rewrite Pos2Z.inj_xI, <- Z.pow_add_r, <- Z.pow_succ_r by lia. f_equal. lia.
Qed.

Lemma iter_shr_1_m (p : positive) :
  forall mrs, 0 <= shr_m mrs ->
    shr_m (iter_pos shr_1 p mrs) = shr_m mrs / 2 ^ Z.pos p.
Proof.
  assert (Hp : forall k, 0 < 2 ^ Z.pos k) by (intros; apply Z.pow_pos_nonneg; lia).
  assert (Hpos : forall m k, 0 <= m -> 0 <= m / 2 ^ Z.pos k)
    by (intros; apply Z.div_pos; auto).
  induction p as [p IH|p IH|]; intros mrs H; simpl iter_pos.
  - assert (H1 : 0 <= shr_m (shr_1 mrs))
      by (rewrite shr_1_m by assumption; apply Z.div_pos; lia).
    assert (H2 : 0 <= shr_m (iter_pos shr_1 p (shr_1 mrs)))
      by (rewrite IH by assumption; auto).
    rewrite (IH _ H2), (IH _ H1), (shr_1_m _ H), pow2_xI.
    rewrite !Z.div_div; auto; try lia.
  - assert (H1 : 0 <= shr_m (iter_pos shr_1 p mrs))
      by (rewrite IH by assumption; auto).
    rewrite (IH _ H1), (IH _ H), pow2_xO.
    rewrite !Z.div_div; auto; specialize (Hp p); lia.
  - rewrite shr_1_m by assumption. reflexivity.
Qed.

Lemma shr_spec (mrs : shr_record) (e n : Z) :
  0 <= shr_m mrs ->
  shr_m (fst (shr mrs e n)) = shr_m mrs / 2 ^ Z.max 0 n
  /\ snd (shr mrs e n) = e + Z.max 0 n.
Proof.
  intros H. destruct n as [|p|p]; simpl shr; simpl fst; simpl snd.
  - rewrite Z.max_l by lia. simpl. rewrite Z.div_1_r. lia.
  - rewrite Z.max_r by lia. split; [now apply iter_shr_1_m | reflexivity].
  - rewrite Z.max_l by lia. simpl. rewrite Z.div_1_r. lia.
Qed.

Lemma shr_m_of_loc (m : Z) (l : location) : shr_m (shr_record_of_loc m l) = m.
Proof. destruct l as [|[]]; reflexivity. Qed.

Lemma loc_of_shr_record_of_loc (m : Z) (l : location) :
  loc_of_shr_record (shr_record_of_loc m l) = l.
Proof. destruct l as [|[]]; reflexivity. Qed.

Lemma shr_fexp_spec (M e : Z) (l : location) :
  0 <= M ->
  let n := Z.max 0 (fexp Num.prec Num.emax (Zdigits2 M + e) - e) in
  shr_m (fst (shr_fexp Num.prec Num.emax M e l)) = M / 2 ^ n
  /\ snd (shr_fexp Num.prec Num.emax M e l) = e + n.
Proof.
  intros H n. unfold shr_fexp.
  pose proof (shr_spec (shr_record_of_loc M l) e
                (fexp Num.prec Num.emax (Zdigits2 M + e) - e)) as Hs.
  rewrite shr_m_of_loc in Hs. now apply Hs.
Qed.

Lemma round_nearest_even_bounds (m : Z) (l : location) :
  m <= round_nearest_even m l <= m + 1.
Proof.
  destruct l as [|[]]; simpl; try lia. destruct (Z.even m); lia.
Qed.

(** The exponent of a number away from the subnormal range. *)
Lemma fexp_normal (x : Z) :
  -1074 <= x - 53 -> fexp Num.prec Num.emax x = x - 53.
Proof. unfold fexp, emin, Num.prec, Num.emax. lia. Qed.

Lemma shr_fexp_noshift (M e : Z) (l : location) :
  fexp Num.prec Num.emax (Zdigits2 M + e) - e <= 0 ->
  shr_fexp Num.prec Num.emax M e l = (shr_record_of_loc M l, e).
Proof.
  unfold shr_fexp. intros H.
  destruct (fexp Num.prec Num.emax (Zdigits2 M + e) - e); try reflexivity. lia.
Qed.

Lemma div_pow2_digits (M d n : Z) :
  2 ^ (d - 1) <= M < 2 ^ d -> 0 <= n -> n <= d - 1 ->
  2 ^ (d - 1 - n) <= M / 2 ^ n < 2 ^ (d - n).
Proof.
  intros [Hlo Hhi] Hn Hd.
  assert (Hp : 0 < 2 ^ n) by (apply Z.pow_pos_nonneg; lia).
  split.
  - apply Z.div_le_lower_bound; [assumption|].
    rewrite <- Z.pow_add_r by lia. replace (n + (d - 1 - n)) with (d - 1) by lia.
    assumption.
  - apply Z.div_lt_upper_bound; [assumption|].
    rewrite <- Z.pow_add_r by lia. replace (n + (d - n)) with d by lia.
    assumption.
Qed.

(** Rounding a mantissa of at least 53 bits, away from underflow and
    overflow: the result is a normal number whose mantissa is the
    truncated one or its successor. *)
Lemma binary_round_aux_normal (s : bool) (M e : Z) (l : location) :
  2 ^ 52 <= M ->
  let n := Zdigits2 M - 53 in
  -1074 <= e + n -> e + n + 1 <= 971 ->
  exists mf ef m2,
    binary_round_aux Num.prec Num.emax s M e l = S754_finite s mf ef
    /\ 2 ^ 52 <= Z.pos mf < 2 ^ 53
    /\ ((ef = e + n /\ Z.pos mf = m2)
        \/ (ef = e + n + 1 /\ Z.pos mf = 2 ^ 52 /\ m2 = 2 ^ 53))
    /\ M / 2 ^ n <= m2 <= M / 2 ^ n + 1
    /\ (l = loc_Exact -> n = 0 -> m2 = M).
Proof.
  intros HM n Hlo Hhi.
  assert (HM0 : 0 < M) by lia.
  destruct (Zdigits2_bounds M HM0) as [Hd1 Hd].
  assert (Hd53 : 53 <= Zdigits2 M).
  { destruct (Z.lt_ge_cases (Zdigits2 M) 53) as [Hlt|]; [|assumption].
    assert (2 ^ Zdigits2 M <= 2 ^ 52) by (apply Z.pow_le_mono_r; lia). lia. }
  assert (Hn : 0 <= n) by (unfold n; lia).
  (* first shift *)
  pose proof (shr_fexp_spec M e l (Z.lt_le_incl _ _ HM0)) as S1.
  rewrite fexp_normal in S1 by (fold n; lia).
  replace (Z.max 0 (Zdigits2 M + e - 53 - e)) with n in S1 by (unfold n; lia).
  cbv zeta in S1. destruct S1 as [S1m S1e].
  pose proof (div_pow2_digits M (Zdigits2 M) n Hd Hn ltac:(unfold n; lia)) as Hm1.
  replace (Zdigits2 M - 1 - n) with 52 in Hm1 by (unfold n; lia).
  replace (Zdigits2 M - n) with 53 in Hm1 by (unfold n; lia).
  unfold binary_round_aux.
  destruct (shr_fexp Num.prec Num.emax M e l) as [mrs1 e1] eqn:E1.
  simpl fst in S1m. simpl snd in S1e. subst e1.
  set (m2 := round_nearest_even (shr_m mrs1) (loc_of_shr_record mrs1)).
  pose proof (round_nearest_even_bounds (shr_m mrs1) (loc_of_shr_record mrs1))
    as Hr. fold m2 in Hr. rewrite S1m in Hr.
  assert (Hexact : l = loc_Exact -> n = 0 -> m2 = M).
  { intros -> Hn0. rewrite shr_fexp_noshift in E1.
    - injection E1 as <-. reflexivity.
    - rewrite fexp_normal by (fold n; lia). fold n. lia. }
  (* second shift *)
  assert (Hm2 : 0 <= m2) by lia.
  pose proof (shr_fexp_spec m2 (e + n) loc_Exact Hm2) as S2.
  cbv zeta in S2. destruct S2 as [S2m S2e].
  destruct (shr_fexp Num.prec Num.emax m2 (e + n) loc_Exact) as [mrs2 e2] eqn:E2.
  simpl fst in S2m. simpl snd in S2e.
  destruct (Z.eq_dec m2 (2 ^ 53)) as [Htop|Hin].
  - assert (Hdg : Zdigits2 m2 = 54).
    { apply Zdigits2_unique; [|lia]. rewrite Htop. simpl. lia. }
    rewrite Hdg, fexp_normal in S2m, S2e by lia.
    replace (Z.max 0 (54 + (e + n) - 53 - (e + n))) with 1 in S2m, S2e by lia.
    rewrite Htop in S2m. change (2 ^ 53 / 2 ^ 1) with (2 ^ 52) in S2m.
    rewrite S2m. change (2 ^ 52) with (Z.pos 4503599627370496).
    cbv iota. rewrite S2e.
    replace (e + n + 1 <=? Num.emax - Num.prec) with true
      by (symmetry; apply Z.leb_le; unfold Num.emax, Num.prec; lia).
    exists 4503599627370496%positive, (e + n + 1), m2.
    split; [reflexivity|]. split; [lia|]. split; [right; auto|]. split; auto.
  - assert (Hdg : Zdigits2 m2 = 53).
    { apply Zdigits2_unique; lia. }
    rewrite Hdg, fexp_normal in S2m, S2e by lia.
    replace (Z.max 0 (53 + (e + n) - 53 - (e + n))) with 0 in S2m, S2e by lia.
    rewrite Z.pow_0_r, Z.div_1_r in S2m. rewrite S2m, S2e.
    destruct m2 as [|mf|mf]; try lia.
    rewrite Z.add_0_r.
    replace (e + n <=? Num.emax - Num.prec) with true
      by (symmetry; apply Z.leb_le; unfold Num.emax, Num.prec; lia).
    exists mf, (e + n), (Z.pos mf).
    split; [reflexivity|]. split; [lia|]. split; [left; auto|]. split; auto.
Qed.

Lemma iter_xO (p k : positive) : Z.pos (Pos.iter xO p k) = Z.pos p * 2 ^ Z.pos k.
Proof.
  induction k as [|k IH] using Pos.peano_ind.
  - simpl Pos.iter. rewrite Pos2Z.inj_xO. change (2 ^ 1) with 2. lia.
  - rewrite Pos.iter_succ, Pos2Z.inj_xO, IH, Pos2Z.inj_succ, Z.pow_succ_r by lia.
    lia.
Qed.

(** The number of a positive integer below 2^53 is that integer, with a
    53-bit mantissa. *)
Lemma of_Z_exact (n : Z) :
  1 <= n < 2 ^ 53 ->
  exists ma ea,
    Num.of_Z n = S754_finite false ma ea
    /\ -52 <= ea <= 0
    /\ 2 ^ 52 <= Z.pos ma < 2 ^ 53
    /\ Z.pos ma = n * 2 ^ (- ea).
Proof.
  intros Hn. destruct n as [|p|p]; try lia.
  destruct (Zdigits2_bounds (Z.pos p) ltac:(lia)) as [Hd1 Hd].
  set (d := Zdigits2 (Z.pos p)) in *.
  assert (Hd53 : d <= 53).
  { destruct (Z.le_gt_cases d 53) as [|Hgt]; [assumption|].
    assert (2 ^ 53 <= 2 ^ (d - 1)) by (apply Z.pow_le_mono_r; lia). lia. }
  unfold Num.of_Z, binary_normalize, binary_round.
  change (Z.pos (digits2_pos p)) with d.
  rewrite Z.add_0_r, fexp_normal by lia.
  set (M := Z.pos p * 2 ^ (53 - d)).
  assert (HM : 2 ^ 52 <= M < 2 ^ 53).
  { unfold M. split.
    - replace 52 with ((d - 1) + (53 - d)) by lia. rewrite Z.pow_add_r by lia.
      apply Z.mul_le_mono_nonneg_r; [apply Z.pow_nonneg|]; lia.
    - replace 53 with (d + (53 - d)) at 2 by lia. rewrite Z.pow_add_r by lia.
      apply Z.mul_lt_mono_pos_r; [apply Z.pow_pos_nonneg|]; lia. }
  assert (Hdm : Zdigits2 M = 53) by (apply Zdigits2_unique; simpl; lia).
  assert (Hal : exists mz, shl_align p 0 (d - 53) = (mz, d - 53) /\ Z.pos mz = M).
  { unfold shl_align. rewrite Z.sub_0_r.
    destruct (d - 53) as [|q|q] eqn:Hq; try lia.
    - exists p. split; [reflexivity|]. unfold M.
      replace (53 - d) with 0 by lia. simpl. lia.
    - exists (Pos.iter xO p q). split; [reflexivity|]. rewrite iter_xO. unfold M.
      replace (53 - d) with (Z.pos q) by lia. reflexivity. }
  destruct Hal as (mz & -> & Hmz). rewrite Hmz.
  destruct (binary_round_aux_normal false M (d - 53) loc_Exact) as
    (mf & ef & m2 & -> & Hmf & Hcase & _ & Hex); try (rewrite Hdm; lia); try lia.
  rewrite Hdm in Hcase, Hex. specialize (Hex eq_refl eq_refl).
  destruct Hcase as [[Hef Hm2] | (_ & _ & ?)]; [|lia].
  exists mf, (d - 53). split; [f_equal; lia|]. split; [lia|]. split; [lia|].
  rewrite Hm2, Hex. unfold M. f_equal. f_equal. lia.
Qed.

Lemma pow2_pos (k : Z) : 0 <= k -> 0 < 2 ^ k.
Proof. intros. apply Z.pow_pos_nonneg; lia. Qed.

Lemma pow2_le (a b : Z) : 0 <= a <= b -> 2 ^ a <= 2 ^ b.
Proof. intros. apply Z.pow_le_mono_r; lia. Qed.

Lemma pow2_le_inv (a b : Z) : 0 <= a -> 0 <= b -> 2 ^ a <= 2 ^ b -> a <= b.
Proof.
  intros Ha Hb H. destruct (Z.le_gt_cases a b) as [|Hgt]; [assumption|].
  assert (2 ^ b < 2 ^ a) by (apply Z.pow_lt_mono_r; lia). lia.
Qed.

Lemma pow2_div (a b : Z) : 0 <= b <= a -> 2 ^ a / 2 ^ b = 2 ^ (a - b).
Proof.
  intros H. replace a with ((a - b) + b) at 1 by lia.
  rewrite Z.pow_add_r by lia. apply Z.div_mul.
  pose proof (pow2_pos b). lia.
Qed.

(** The quotient of two numbers of integers [n <= m] is at most
    [1 + 2^-52]. *)
Lemma div_at_most_one (ma mb : positive) (ea eb n m : Z) :
  -52 <= ea <= 0 -> -52 <= eb <= 0 ->
  2 ^ 52 <= Z.pos ma < 2 ^ 53 -> 2 ^ 52 <= Z.pos mb < 2 ^ 53 ->
  Z.pos ma = n * 2 ^ (- ea) -> Z.pos mb = m * 2 ^ (- eb) ->
  1 <= n <= m ->
  exists mx ex,
    Num.div (S754_finite false ma ea) (S754_finite false mb eb)
    = S754_finite false mx ex
    /\ 2 ^ 52 <= Z.pos mx < 2 ^ 53
    /\ -105 <= ex <= -52
    /\ Z.pos mx * 2 ^ 52 <= (2 ^ 52 + 1) * 2 ^ (- ex).
Proof.
  intros Hea Heb HA HB EA EB Hnm.
  set (A := Z.pos ma) in *. set (B := Z.pos mb) in *.
  assert (HD : ea <= eb).
  { destruct (Z.le_gt_cases ea eb) as [|Hgt]; [assumption|exfalso].
    assert (H2 : 2 ^ 1 <= 2 ^ (ea - eb)) by (apply pow2_le; lia).
    replace (- eb) with (- ea + (ea - eb)) in EB by lia.
    rewrite Z.pow_add_r in EB by lia.
    pose proof (pow2_pos (- ea) ltac:(lia)) as HP.
    change (2 ^ 1) with 2 in H2.
    set (P := 2 ^ (- ea)) in *. set (K := 2 ^ (ea - eb)) in *.
    assert (n * P <= m * P) by nia.
    assert (m * P * 2 <= m * P * K) by nia.
    lia. }
  set (D := eb - ea).
  assert (HAB : A <= B * 2 ^ D).
  { rewrite EB, EA, <- Z.mul_assoc, <- Z.pow_add_r by (unfold D; lia).
    replace (- eb + D) with (- ea) by (unfold D; lia).
    apply Z.mul_le_mono_nonneg_r; [|lia].
    pose proof (pow2_pos (- ea)); lia. }
  set (q := A * 2 ^ 53 / B).
  assert (Hq_hi : q <= 2 ^ (53 + D)).
  { unfold q. apply Z.div_le_upper_bound; [lia|].
    rewrite Z.pow_add_r by (unfold D; lia).
    pose proof (pow2_pos D ltac:(unfold D; lia)). nia. }
  assert (Hq_lo : 2 ^ 52 <= q).
  { unfold q. apply Z.div_le_lower_bound; lia. }
  destruct (Zdigits2_bounds q ltac:(lia)) as [Hdq1 Hdq].
  set (dq := Zdigits2 q) in *.
  assert (Hdq_lo : 53 <= dq).
  { destruct (Z.lt_ge_cases dq 53) as [Hlt|]; [|assumption].
    assert (2 ^ dq <= 2 ^ 52) by (apply pow2_le; lia). lia. }
  assert (Hdq_hi : dq - 1 <= 53 + D).
  { apply pow2_le_inv; try (unfold D; lia). lia. }
  (* the definition, down to the rounding of [q] *)
  unfold Num.div, SFdiv, SFdiv_core_binary.
  replace (Zdigits2 (Z.pos ma)) with 53
    by (symmetry; apply Zdigits2_unique; fold A; simpl; lia).
  replace (Zdigits2 (Z.pos mb)) with 53
    by (symmetry; apply Zdigits2_unique; fold B; simpl; lia).
  replace (53 + ea - (53 + eb)) with (ea - eb) by lia.
  rewrite fexp_normal by lia.
  replace (Z.min (ea - eb - 53) (ea - eb)) with (ea - eb - 53) by lia.
  replace (ea - eb - (ea - eb - 53)) with 53 by lia.
  cbv iota. rewrite Z.shiftl_mul_pow2 by lia. fold A B.
  assert (Hqr : fst (Z.div_eucl (A * 2 ^ 53) B) = q) by reflexivity.
  destruct (Z.div_eucl (A * 2 ^ 53) B) as [q' r]. simpl in Hqr. subst q'.
  simpl xorb.
  destruct (binary_round_aux_normal false q (ea - eb - 53) (new_location B r))
    as (mx & ex & m2 & -> & Hmx & Hcase & Hm2 & _); fold dq; try lia.
  exists mx, ex. split; [reflexivity|]. split; [assumption|].
  fold dq in Hm2, Hcase. set (n1 := dq - 53) in *.
  assert (Hn1 : 0 <= n1 <= 53 + D) by (unfold n1, D in *; lia).
  assert (Hm2' : m2 <= 2 ^ (53 + D - n1) + 1).
  { destruct Hm2 as [_ Hm2]. rewrite <- (pow2_div (53 + D) n1) by lia.
    assert (q / 2 ^ n1 <= 2 ^ (53 + D) / 2 ^ n1)
      by (apply Z.div_le_mono; [apply pow2_pos|]; lia).
    lia. }
  set (W := 2 ^ (53 + D - n1)) in *.
  assert (HW : 2 ^ 52 <= W) by (apply pow2_le; unfold n1, D in *; lia).
  destruct Hcase as [[Hex Hm] | (Hex & Hm & Htop)].
  - replace (- ex) with (53 + D - n1) by (unfold D; lia). fold W.
    split; [unfold n1, D in *; lia|]. lia.
  - assert (Hn53 : n1 <= D).
    { destruct (Z.le_gt_cases n1 D) as [|Hgt]; [assumption|exfalso].
      assert (W <= 2 ^ 52) by (apply pow2_le; unfold n1, D in *; lia). lia. }
    split; [unfold n1, D in *; lia|].
    assert (2 ^ 52 <= 2 ^ (- ex)) by (apply pow2_le; unfold n1, D in *; lia).
    lia.
Qed.

(** The quotient of the number of a positive integer by itself is 1. *)
Lemma div_self (ma : positive) (ea : Z) :
  -52 <= ea <= 0 -> 2 ^ 52 <= Z.pos ma < 2 ^ 53 ->
  Num.div (S754_finite false ma ea) (S754_finite false ma ea) = Num.of_Z 1.
Proof.
  intros Hea HA.
  unfold Num.div, SFdiv, SFdiv_core_binary.
  replace (Zdigits2 (Z.pos ma)) with 53
    by (symmetry; apply Zdigits2_unique; simpl; lia).
  replace (53 + ea - (53 + ea)) with 0 by lia.
  replace (ea - ea) with 0 by lia.
  change (Z.min (fexp Num.prec Num.emax 0) 0) with (-53).
  change (0 - -53) with 53. cbv iota.
  rewrite Z.shiftl_mul_pow2 by lia.
  assert (Hqr : Z.div_eucl (Z.pos ma * 2 ^ 53) (Z.pos ma) = (2 ^ 53, 0)).
  { pose proof (Z.div_eucl_eq (Z.pos ma * 2 ^ 53) (Z.pos ma) ltac:(lia)) as E.
    pose proof (Z.mod_pos_bound (Z.pos ma * 2 ^ 53) (Z.pos ma) ltac:(lia)) as Hr.
    unfold Z.modulo in Hr.
    destruct (Z.div_eucl (Z.pos ma * 2 ^ 53) (Z.pos ma)) as [q r].
    assert (q = 2 ^ 53) by nia. subst q. f_equal. lia. }
  rewrite Hqr. unfold new_location.
  destruct (Z.even (Z.pos ma)); reflexivity.
Qed.

(** A number at most [1 + 2^-52], times 1000, rounds to an integer from 0
    to 1000. *)
Lemma round_mul_1000 (mx : positive) (ex : Z) :
  2 ^ 52 <= Z.pos mx < 2 ^ 53 ->
  -105 <= ex <= -52 ->
  Z.pos mx * 2 ^ 52 <= (2 ^ 52 + 1) * 2 ^ (- ex) ->
  exists k,
    0 <= k <= 1000
    /\ Num.round (Num.mul (S754_finite false mx ex) (Num.of_Z 1000))
       = Num.of_Z k.
Proof.
  intros HX Hex Hval.
  change (Num.of_Z 1000) with (S754_finite false 8796093022208000 (-43)).
  unfold Num.mul, SFmul. simpl xorb. rewrite Pos2Z.inj_mul.
  set (X := Z.pos mx) in *. set (C := Z.pos 8796093022208000).
  assert (HC : C = 1000 * 2 ^ 43) by reflexivity.
  set (E := - ex) in *.
  set (U := 2 ^ (E - 52)).
  assert (HU : 1 <= U) by (pose proof (pow2_pos (E - 52)); unfold E in *; lia).
  assert (HE : 2 ^ E = 2 ^ 52 * U).
  { unfold U. rewrite <- Z.pow_add_r by (unfold E; lia). f_equal. lia. }
  rewrite HE in Hval.
  assert (HXU : X <= (2 ^ 52 + 1) * U) by lia.
  set (M := X * C).
  assert (HM_lo : 2 ^ 104 <= M) by (unfold M; rewrite HC; lia).
  assert (HM_hi : M < 2 ^ 106) by (unfold M; rewrite HC; lia).
  assert (HM_U : M <= (2 ^ 52 + 1) * C * U) by (unfold M; rewrite HC; lia).
  clearbody C.
  destruct (Zdigits2_bounds M ltac:(lia)) as [Hd1 Hd].
  set (d := Zdigits2 M) in *.
  assert (Hd_lo : 105 <= d).
  { destruct (Z.lt_ge_cases d 105) as [Hlt|]; [|assumption].
    assert (2 ^ d <= 2 ^ 104) by (apply pow2_le; lia). lia. }
  assert (Hd_hi : d <= 106).
  { destruct (Z.le_gt_cases d 106) as [|Hgt]; [assumption|].
    assert (2 ^ 106 <= 2 ^ (d - 1)) by (apply pow2_le; lia). lia. }
  assert (Hd_E : d <= 53 + E).
  { destruct (Z.le_gt_cases d (53 + E)) as [|Hgt]; [assumption|exfalso].
    assert (H1 : 2 ^ (53 + E) <= 2 ^ (d - 1)) by (apply pow2_le; unfold E; lia).
    replace (53 + E) with (105 + (E - 52)) in H1 by lia.
    rewrite Z.pow_add_r in H1 by (unfold E; lia). fold U in H1. lia. }
  destruct (binary_round_aux_normal false M (ex + -43) loc_Exact)
    as (my & ey & m2 & -> & Hmy & Hcase & Hm2 & _); fold d; try lia.
  fold d in Hm2, Hcase. set (n3 := d - 53) in *.
  set (Nn := 2 ^ n3) in *.
  assert (HNn : 0 < Nn <= 2 ^ 53).
  { split; [apply pow2_pos; unfold n3; lia|].
    apply pow2_le; unfold n3; lia. }
  assert (Hm2' : (m2 - 1) * Nn <= M).
  { pose proof (Z.mul_div_le M Nn ltac:(lia)). nia. }
  assert (Hround : forall T,
             ey < 0 -> T = 2 ^ (- ey) -> 2 * Z.pos my < 2001 * T ->
             exists k, 0 <= k <= 1000
                       /\ Num.round (S754_finite false my ey) = Num.of_Z k).
  { intros T Hneg HT Hlt.
    assert (HTpos : 0 < T) by (subst T; apply pow2_pos; lia).
    exists ((2 * Z.pos my + 2 ^ (- ey)) / 2 ^ (1 - ey)).
    assert (H2T : 2 ^ (1 - ey) = 2 * T).
    { subst T. replace (1 - ey) with (Z.succ (- ey)) by lia.
      rewrite Z.pow_succ_r by lia. reflexivity. }
    rewrite H2T, <- HT.
    assert (Hk : 0 <= (2 * Z.pos my + T) / (2 * T) <= 1000).
    { split.
      - apply Z.div_pos; lia.
      - assert ((2 * Z.pos my + T) / (2 * T) < 1001); [|lia].
        apply Z.div_lt_upper_bound; lia. }
    split; [exact Hk|].
    unfold Num.round. replace (0 <=? ey) with false
      by (symmetry; apply Z.leb_gt; lia).
    simpl cond_Zopp. rewrite H2T, <- HT.
    destruct (Z.eqb_spec ((2 * Z.pos my + T) / (2 * T)) 0) as [->|]; reflexivity. }
  destruct Hcase as [[Hey Hm] | (Hey & Hm & Htop)].
  - apply (Hround (2 ^ (- ey))); [unfold n3, E in *; lia|reflexivity|].
    set (T := 2 ^ (- ey)).
    assert (HTN : T * Nn = 2 ^ 95 * U).
    { unfold T, Nn, U. rewrite <- !Z.pow_add_r by (unfold n3, E in *; lia).
      f_equal. unfold n3, E in *. lia. }
    assert (2 * Z.pos my * Nn < 2001 * T * Nn); [|nia].
    rewrite Hm. lia.
  - assert (Hn3 : n3 <= E - 1).
    { destruct (Z.le_gt_cases n3 (E - 1)) as [|Hgt]; [assumption|exfalso].
      assert (H1 : 2 ^ E <= Nn) by (apply pow2_le; unfold E, n3 in *; lia).
      rewrite HE in H1. rewrite Htop in Hm2'. nia. }
    apply (Hround (2 ^ (- ey))); [unfold n3, E in *; lia|reflexivity|].
    assert (2 ^ 43 <= 2 ^ (- ey)) by (apply pow2_le; unfold n3, E in *; lia).
    lia.
Qed.

(** ** Scores *)

Lemma score_of_hundredths (n m : nat) :
  (1 <= n <= m)%nat -> Z.of_nat m < 2 ^ 53 ->
  exists k, 0 <= k <= 1000 /\ score_of n m = hundredths k.
Proof.
  intros Hnm Hm. unfold score_of, Num.of_nat.
  destruct (of_Z_exact (Z.of_nat n) ltac:(lia)) as (ma & ea & -> & Hea & HA & EA).
  destruct (of_Z_exact (Z.of_nat m) ltac:(lia)) as (mb & eb & -> & Heb & HB & EB).
  destruct (div_at_most_one ma mb ea eb (Z.of_nat n) (Z.of_nat m))
    as (mx & ex & -> & HX & Hex & Hval); try assumption; try lia.
  destruct (round_mul_1000 mx ex HX Hex Hval) as (k & Hk & ->).
  exists k. split; [assumption|reflexivity].
Qed.

Lemma score_of_full (n : nat) :
  (1 <= n)%nat -> Z.of_nat n < 2 ^ 53 -> score_of n n = hundredths 1000.
Proof.
  intros Hn Hm. unfold score_of, Num.of_nat.
  destruct (of_Z_exact (Z.of_nat n) ltac:(lia)) as (ma & ea & -> & Hea & HA & EA).
  rewrite (div_self ma ea Hea HA). reflexivity.
Qed.

(** 201 flights against 400: the quotient times 1000 is the number
    502.49999999999994, below the tie at 502.5, and the score is 5.02. *)
Example score_of_201_400 :
  score_of 201 400 = hundredths 502
  /\ Num.mul (Num.div (Num.of_nat 201) (Num.of_nat 400)) (Num.of_Z 1000)
     = S754_finite false 8840073487319039 (-44).
Proof. vm_compute. split; reflexivity. Qed.

Lemma in_upto_1000 (k : Z) : 0 <= k <= 1000 -> In k upto_1000.
Proof.
  intros H. unfold upto_1000. apply in_map_iff. exists (Z.to_nat k).
  split; [lia|]. apply in_seq. lia.
Qed.

Lemma forall_upto_1000 (P : Z -> bool) :
  forallb P upto_1000 = true -> forall k, 0 <= k <= 1000 -> P k = true.
Proof.
  intros H k Hk. rewrite forallb_forall in H. apply H. now apply in_upto_1000.
Qed.

Lemma hundredths_table : forallb hundredths_ok upto_1000 = true.
Proof. vm_compute. reflexivity. Qed.

(** ** Order of the scores *)

Lemma compare_cont_Z (p q : positive) :
  Pos.compare_cont Eq p q = (Z.pos p ?= Z.pos q).
Proof. rewrite Pos.compare_cont_spec, Pos2Z.inj_compare. now destruct (_ ?= _). Qed.



Lemma hundredths_facts (k : Z) :
  0 <= k <= 1000 ->
  let x := hundredths k in
  Num.geb x Num.lit_0_005 = (1 <=? k)
  /\ Num.leb (Num.of_Z 0) x = true
  /\ Num.leb x (Num.of_Z 10) = true
  /\ zero_or_normal x = true
  /\ Num.gtb x (Num.of_Z 0) && Num.leb x Num.lit_0_005 = false
  /\ Num.ltb x Num.lit_0_005 = (k =? 0)
  /\ (k < 1000 -> SFcompare x (hundredths (k + 1)) = Some Lt).
Proof.
  intros Hk x.
  pose proof (forall_upto_1000 hundredths_ok hundredths_table k Hk) as H.
  unfold hundredths_ok in H. fold x in H. cbv zeta in H. clearbody x.
  apply andb_prop in H as [H Hnext]. apply andb_prop in H as [H Hlt].
  apply andb_prop in H as [H Hprior]. apply andb_prop in H as [H Hshape].
  apply andb_prop in H as [H H10]. apply andb_prop in H as [Hge H0].
  split; [now apply Bool.eqb_prop|]. split; [exact H0|]. split; [exact H10|].
  split; [|split; [now apply negb_true_iff|split; [now apply Bool.eqb_prop|]]].
  - clear - Hshape. unfold zero_or_normal.
    destruct (k =? 0);
      [|destruct x as [[]| | |]; first [exact Hshape | reflexivity]].
    destruct x as [[]| | |]; try discriminate Hshape; reflexivity.
  - clear - Hnext. intros Hk.
    replace (k =? 1000) with false in Hnext
      by (symmetry; apply Z.eqb_neq; lia).
    destruct (SFcompare x (hundredths (k + 1))) as [[]|];
      try discriminate Hnext; reflexivity.
Qed.










End Binary64.

(** ** The stable sort *)

Section SortProperties.

Variable A : Type.
Variable cmp : A -> A -> comparison.

Lemma insert_sorted_perm (x : A) (l : list A) :
  Permutation (insert_sorted cmp x l) (x :: l).
Proof.
  induction l as [|y l IH]; simpl; [reflexivity|].
  destruct (cmp x y); try reflexivity.
  rewrite IH. apply perm_swap.
Qed.

Lemma js_sort_perm (l : list A) : Permutation (js_sort cmp l) l.
Proof.
  induction l as [|x l IH]; simpl; [reflexivity|].
  rewrite insert_sorted_perm. now constructor.
Qed.

(** A comparator that is consistent on the elements that satisfy [P]. *)
Variable P : A -> Prop.
Hypothesis cmp_antisym :
  forall a b, P a -> P b -> cmp b a = CompOpp (cmp a b).
Hypothesis cmp_trans :
  forall a b c, P a -> P b -> P c ->
                cmp a b <> Gt -> cmp b c <> Gt -> cmp a c <> Gt.
Variable R : A -> A -> Prop.

Lemma insert_sorted_stable (x : A) (l : list A) :
  P x -> Forall P l ->
  Forall (R x) l ->
  StronglySorted (then_by cmp R) l ->
  StronglySorted (then_by cmp R) (insert_sorted cmp x l).
Proof.
  intros Px HP HR HS. induction HS as [|y l HSl IH Hy]; simpl.
  - repeat constructor.
  - inversion HP as [|? ? Py HPl]; subst. inversion HR as [|? ? Rxy HRl]; subst.
    destruct (cmp x y) eqn:Exy.
    + constructor; [now constructor|]. constructor; [right; auto|].
      rewrite Forall_forall in *. intros z Hz.
      assert (Hxz : cmp x z <> Gt).
      { apply (cmp_trans x y z Px Py (HPl z Hz)); [congruence|].
        destruct (Hy z Hz) as [Hyz | [Hyz _]]; congruence. }
      unfold then_by. destruct (cmp x z); [right|left|congruence]; auto.
    + constructor; [now constructor|]. constructor; [left; auto|].
      rewrite Forall_forall in *. intros z Hz.
      assert (Hxz : cmp x z <> Gt).
      { apply (cmp_trans x y z Px Py (HPl z Hz)); [congruence|].
        destruct (Hy z Hz) as [Hyz | [Hyz _]]; congruence. }
      unfold then_by. destruct (cmp x z); [right|left|congruence]; auto.
    + constructor; [now apply IH|].
      assert (Hin : forall z, In z (insert_sorted cmp x l) -> z = x \/ In z l).
      { intros z Hz.
        apply (Permutation_in _ (insert_sorted_perm x l)) in Hz.
        destruct Hz; auto. }
      rewrite Forall_forall in *. intros z Hz.
      destruct (Hin z Hz) as [-> | Hzl]; [|now apply Hy].
      left. rewrite (cmp_antisym x y Px Py), Exy. reflexivity.
Qed.

Lemma js_sort_stable (l : list A) :
  Forall P l ->
  StronglySorted R l ->
  StronglySorted (then_by cmp R) (js_sort cmp l).
Proof.
  intros HP HS. induction HS as [|x l HSl IH Hx]; simpl; [constructor|].
  inversion HP as [|? ? Px HPl]; subst.
  apply insert_sorted_stable; auto.
  - eapply Permutation_Forall; [symmetry; apply js_sort_perm | assumption].
  - eapply Permutation_Forall; [symmetry; apply js_sort_perm | assumption].
Qed.

End SortProperties.


(** ** The pipeline of [gen] *)

Section Pipeline.

Variable helicopters : list string.
Variable prefixes : list string.
Variable callsigns : list (string * string).
Variable NUMBERS : list (string * string).
Variable direction : Flight.t -> Direction.t.



Lemma update_first_Forall (Q : Cluster.t -> Prop) (p : Cluster.t -> bool)
  (f : Cluster.t -> Cluster.t) (l : list Cluster.t) :
  (forall m, Q m -> p m = true -> Q (f m)) ->
  Forall Q l -> Forall Q (update_first p f l).
Proof.
  intros Hf. induction 1 as [|m l Hm Hl IH]; simpl; [constructor|].
  destruct (p m) eqn:Hp; constructor; auto.
Qed.

Lemma update_first_members (flight : Flight.t) (d : Direction.t)
  (l : list Cluster.t) :
  members (update_first (belongs flight d) (absorb flight d) l) <= members l + 1.
Proof.
  unfold members. induction l as [|m l IH]; simpl; [lia|].
  destruct (belongs flight d m); simpl; [|lia].
  rewrite length_app. simpl. lia.
Qed.

Lemma group_flight_invariant (done : list Flight.t) (merged : list Cluster.t)
  (flight : Flight.t) :
  Forall (drawn_from done) merged /\ members merged <= List.length done ->
  Forall (drawn_from (done ++ [flight]))
    (group_flight callsigns NUMBERS direction merged flight)
  /\ members (group_flight callsigns NUMBERS direction merged flight)
     <= List.length (done ++ [flight]).
Proof.
  intros [Hd Hm]. rewrite length_app. simpl.
  assert (Hd' : Forall (drawn_from (done ++ [flight])) merged).
  { eapply Forall_impl; [|exact Hd]. intros m H f Hf.
    destruct (H f Hf). split; [apply in_or_app|]; auto. }
  unfold group_flight.
  destruct (Flight.airline flight) eqn:Ha; [split; [assumption|lia]| |];
    (destruct (find _ merged); split;
     [ apply update_first_Forall; [|assumption];
       intros m H _ f Hf; unfold absorb in Hf; simpl in Hf;
       apply in_app_or in Hf as [Hf|[<-|[]]]; [now apply H|];
       split; [apply in_or_app; right; left; reflexivity | congruence]
     | pose proof (update_first_members flight (direction flight) merged); lia
     | apply Forall_app; split; [assumption|]; constructor; [|constructor];
       intros f [<-|[]]; split;
       [apply in_or_app; right; left; reflexivity | congruence]
     | unfold members in *; rewrite map_app, list_sum_app; simpl; lia ]).
Qed.

Lemma fold_group_invariant (flights : list Flight.t) :
  forall done merged,
    Forall (drawn_from done) merged /\ members merged <= List.length done ->
    Forall (drawn_from (done ++ flights))
      (fold_left (group_flight callsigns NUMBERS direction) flights merged)
    /\ members (fold_left (group_flight callsigns NUMBERS direction) flights merged)
       <= List.length (done ++ flights).
Proof.
  induction flights as [|f flights IH]; intros done merged H; simpl.
  - now rewrite app_nil_r.
  - replace (done ++ f :: flights) with ((done ++ [f]) ++ flights)
      by (rewrite <- app_assoc; reflexivity).
    apply IH. now apply group_flight_invariant.
Qed.

Lemma group_drawn (flights : list Flight.t) :
  Forall (drawn_from flights) (group callsigns NUMBERS direction flights)
  /\ members (group callsigns NUMBERS direction flights) <= List.length flights.
Proof.
  apply (fold_group_invariant flights [] []).
  split; [apply Forall_nil | apply Nat.le_refl].
Qed.

Lemma length_le_members (merged : list Cluster.t) (m : Cluster.t) :
  In m merged -> List.length (Cluster.flights m) <= members merged.
Proof.
  unfold members. induction merged as [|a l IH]; simpl; [intros []|].
  intros [->|H]; [lia|]. specialize (IH H). lia.
Qed.

Lemma maxFlights_bounds (merged : list Cluster.t) :
  maxFlights merged <= members merged
  /\ forall m, In m merged -> List.length (Cluster.flights m) <= maxFlights merged.
Proof.
  unfold maxFlights, members. split.
  - induction merged as [|a l IH]; simpl; lia.
  - intros m Hm.
    assert (H : Forall (fun k => k <= list_max (map (fun m => List.length (Cluster.flights m)) merged))
                  (map (fun m => List.length (Cluster.flights m)) merged))
      by (apply list_max_le; lia).
    rewrite Forall_forall in H. apply H. apply in_map_iff. eauto.
Qed.

(** The sizes the scoring loop divides: a cluster has at least one flight
    and at most [maxFlights], which is at most the number of flights. *)
Lemma cluster_sizes (flights : list Flight.t) (m : Cluster.t) :
  In m (group callsigns NUMBERS direction flights) ->
  1 <= List.length (Cluster.flights m)
       <= maxFlights (group callsigns NUMBERS direction flights)
  /\ maxFlights (group callsigns NUMBERS direction flights) <= List.length flights.
Proof.
  intros Hm.
  pose proof (group_seeded callsigns NUMBERS direction flights) as Hs.
  rewrite Forall_forall in Hs. destruct (Hs m Hm) as (seed & rest & Hf & _).
  destruct (maxFlights_bounds (group callsigns NUMBERS direction flights))
    as [Hmax Hle].
  destruct (group_drawn flights) as [_ Hmem].
  specialize (Hle m Hm). rewrite Hf in *. simpl in *. lia.
Qed.

End Pipeline.

(** ** Scores *)


Section Scores.

Variable callsigns : list (string * string).
Variable NUMBERS : list (string * string).
Variable direction : Flight.t -> Direction.t.

(** What the scoring loop leaves in a cluster. *)
Lemma score_shape (flights : list Flight.t) (m : Cluster.t) :
  (Z.of_nat (List.length flights) < 2 ^ 32)%Z ->
  In m (scored (group callsigns NUMBERS direction flights)) ->
  let maxCount := maxFlights (group callsigns NUMBERS direction flights) in
  Cluster.score m = score_of (List.length (Cluster.flights m)) maxCount
  /\ (exists k, (0 <= k <= 1000)%Z /\ Cluster.score m = hundredths k)
  /\ (List.length (Cluster.flights m) = maxCount ->
      Cluster.score m = hundredths 1000).
Proof.
  intros Hlen Hm maxCount.
  unfold scored in Hm. apply in_map_iff in Hm as (m0 & <- & Hm0).
  fold maxCount. unfold set_score. simpl.
  destruct (cluster_sizes callsigns NUMBERS direction flights m0 Hm0) as [Hsz Hmax].
  fold maxCount in Hsz, Hmax.
  assert (Hbig : (Z.of_nat maxCount < 2 ^ 53)%Z).
  { assert (2 ^ 32 < 2 ^ 53)%Z by reflexivity. lia. }
  split; [reflexivity|]. split.
  - apply score_of_hundredths; assumption.
  - intros E. rewrite E. apply score_of_full; lia.
Qed.


(** The test of the revision before, [m.score > 0 && m.score <= 0.005],
    holds for no score that the scoring loop computes. *)
Lemma warns_prior_silent (flights : list Flight.t) (m : Cluster.t) :
  (Z.of_nat (List.length flights) < 2 ^ 32)%Z ->
  In m (scored (group callsigns NUMBERS direction flights)) ->
  warns_prior callsigns m = false.
Proof.
  intros Hlen Hm.
  destruct (score_shape flights m Hlen Hm) as (_ & (k & Hk & Hs) & _).
  unfold warns_prior. destruct (Cluster.pronunciation m); [|reflexivity].
  rewrite Hs. destruct (hundredths_facts k Hk) as (_ & _ & _ & _ & -> & _).
  reflexivity.
Qed.

End Scores.


(** ** Warnings *)

(** The claim C6 as the specification words it fails: the busiest cluster,
    of score 10, is warned about when its spelled pronunciation is not in
    the dictionary, and 10 is not in (0, 0.005]. *)
Lemma busiest_cluster_warned :
  let dictionary := [("BAW", "speedbird")] in
  let ms := scored (group dictionary [] (fun _ => Direction.N)
                      (normalise [] []
                         [sample_flight 1 None "A320" (Code "ZZZ") None])) in
  map Cluster.score ms = [Num.of_Z 10]
  /\ map Cluster.pronunciation ms = [Some "Zulu Zulu Zulu"]
  /\ map (warns dictionary) ms = [true]
  /\ List.length (warnings dictionary ms) = 1
  /\ Num.leb (Num.of_Z 10) Num.lit_0_005 = false
  /\ map (warns_prior dictionary) ms = [false].
Proof. vm_compute. repeat split; reflexivity. Qed.

Lemma existsb_snd_eqb (callsigns : list (string * string)) (p : string) :
  existsb (fun kv => String.eqb (snd kv) p) callsigns = true
  <-> In p (map snd callsigns).
Proof.
  rewrite existsb_exists, in_map_iff. split.
  - intros (kv & Hin & E). apply String.eqb_eq in E. eauto.
  - intros (kv & E & Hin). exists kv. split; [assumption|].
    now apply String.eqb_eq.
Qed.

(** C6 (amended). The scoring loop writes a warning for a cluster exactly
    when its pronunciation is not [null], its score is at least 0.005 (the
    test that also keeps the cluster in the listing), its airline code does
    not end in a dash, and its pronunciation is not among the values of the
    dictionary.  The warnings are what [gen] writes to the standard error;
    the standard output is the listing of the scored clusters, in which no
    warning takes part. *)
Theorem warning_iff (helicopters prefixes : list string)
  (callsigns NUMBERS : list (string * string))
  (direction : Flight.t -> Direction.t)
  (localeCompare : string -> string -> Z) (toFixed2 : Num.number -> string)
  (flights : list Flight.t) :
  let ms := scored (group callsigns NUMBERS direction
                      (normalise helicopters prefixes flights)) in
  gen helicopters prefixes callsigns NUMBERS direction localeCompare toFixed2
    flights
  = (map warning (filter (warns callsigns) ms),
     listing localeCompare toFixed2 ms)
  /\ forall m,
       warns callsigns m = true <->
       exists p,
         Cluster.pronunciation m = Some p
         /\ Num.geb (Cluster.score m) Num.lit_0_005 = true
         /\ (forall code, Cluster.airline m = Code code ->
                          Str.endsWith code "-" = false)
         /\ ~ In p (map snd callsigns).
Proof.
  intros ms. split; [reflexivity|]. intros m. unfold warns.
  destruct (Cluster.pronunciation m) as [p|].
  - rewrite !andb_true_iff, negb_true_iff. unfold known_pronunciation.
    split.
    + intros [[Hs Hd] Hk]. exists p. repeat split; auto.
      * intros code Hc. unfold no_trailing_dash in Hd. rewrite Hc in Hd.
        now apply negb_true_iff.
      * intros Hin. apply existsb_snd_eqb in Hin. congruence.
    + intros (p' & E & Hs & Hd & Hk). injection E as <-.
      repeat split; auto.
      * unfold no_trailing_dash. destruct (Cluster.airline m) as [| |code];
          try reflexivity. now rewrite (Hd code eq_refl).
      * destruct (existsb _ callsigns) eqn:Ex; [|reflexivity].
        exfalso. apply Hk. now apply existsb_snd_eqb.
  - split; [discriminate|]. intros (p & E & _). discriminate.
Qed.

(** ** The listing *)

Lemma StronglySorted_weaken (A : Type) (R R' : A -> A -> Prop) (l : list A) :
  (forall a b, In a l -> In b l -> R a b -> R' a b) ->
  StronglySorted R l -> StronglySorted R' l.
Proof.
  intros H HS. induction HS as [|x l HS IH Hx]; constructor.
  - apply IH. intros a b Ha Hb. apply H; now right.
  - rewrite Forall_forall in *. intros y Hy. apply H; [now left|now right|auto].
Qed.

Lemma StronglySorted_trivial (A : Type) (l : list A) :
  StronglySorted (fun _ _ => True) l.
Proof.
  induction l; constructor; auto. rewrite Forall_forall. auto.
Qed.




Section Listing.

Variable helicopters : list string.
Variable prefixes : list string.
Variable callsigns : list (string * string).
Variable NUMBERS : list (string * string).
Variable direction : Flight.t -> Direction.t.
Variable localeCompare : string -> string -> Z.
Variable toFixed2 : Num.number -> string.

(** [localeCompare] is a consistent comparator: swapping its arguments
    swaps the sign, and "not after" is transitive. *)
Hypothesis localeCompare_antisym :
  forall a b, (localeCompare b a ?= 0)%Z = CompOpp (localeCompare a b ?= 0)%Z.
Hypothesis localeCompare_trans :
  forall a b c, (localeCompare a b <= 0)%Z -> (localeCompare b c <= 0)%Z ->
                (localeCompare a c <= 0)%Z.



End Listing.




(** The listing of the three airlines: the two busiest first, in the order
    of their codes, then the third with half their score. *)
Example listing_of_three_airlines :
  option_map
    (map (fun m => (airline_text (Cluster.airline m), Cluster.score m)))
    (survivors code_order
       (scored (group [] [] (fun _ => Direction.E)
                  (normalise ["R44"] ["G"] three_airlines))))
  = Some [ ("AFR", Num.of_Z 10); ("BAW", Num.of_Z 10); ("RYR", Num.of_Z 5) ].
Proof. vm_compute. reflexivity. Qed.

(* ================================================================== *)
(** * Properties of the other commands and of the loading *)

(** ** The normalising loop *)

Lemma location_eta (x : Location) :
  mkLocation (loc_name x) (lat x) (lon x) = x.
Proof. destruct x; reflexivity. Qed.

Lemma with_airline_same (f : Flight.t) (a : string) :
  same_but_airline f (with_airline f a)
  /\ Flight.airline (with_airline f a) = Code a.
Proof.
  unfold same_but_airline, with_airline; simpl.
  rewrite !location_eta. repeat split.
Qed.

Lemma with_airline_same_locations_same (f : Flight.t) (a : string) :
  same_but_airline f (with_airline_same_locations f a)
  /\ Flight.airline (with_airline_same_locations f a) = Code a.
Proof. unfold same_but_airline, with_airline_same_locations; simpl. repeat split. Qed.

Lemma same_but_airline_refl (f : Flight.t) : same_but_airline f f.
Proof. unfold same_but_airline. repeat split. Qed.

(** What a replacement is: the flight with another airline code. *)
Lemma normalise_flight_replace (helicopters prefixes : list string)
  (flight g : Flight.t) :
  snd (normalise_flight helicopters prefixes flight) = Replace g ->
  same_but_airline flight g /\ exists code, Flight.airline g = Code code.
Proof.
  unfold normalise_flight.
  destruct (is_invalid helicopters flight); [discriminate|].
  assert (Hb : snd (callsign_branches flight) = Replace g ->
               same_but_airline flight g /\ exists code, Flight.airline g = Code code).
  { unfold callsign_branches.
    destruct (Flight.callsign flight) as [cs|]; [|discriminate].
    destruct (_ || _).
    - simpl. destruct (negb _); [discriminate|].
      intros E; injection E as <-. split; [apply with_airline_same|].
      eexists. apply with_airline_same.
    - destruct (Re.four_letters _); simpl; [|discriminate].
      intros E; injection E as <-.
      split; [apply with_airline_same_locations_same|].
      eexists. apply with_airline_same_locations_same. }
  destruct (Flight.tail flight) as [tail|]; [|exact Hb].
  destruct (Flight.callsign flight) as [cs|]; [|exact Hb].
  destruct (same_registration tail cs); [|exact Hb].
  simpl. unfold regional_action.
  destruct (negb _).
  - destruct (find_prefix prefixes tail); [|discriminate].
    intros E; injection E as <-. split; [apply with_airline_same|].
    eexists. apply with_airline_same.
  - destruct (Str.indexOf tail "-"); intros E; injection E as <-;
      (split; [apply with_airline_same | eexists; apply with_airline_same]).
Qed.

(** X1. The normalising loop of gen only deletes flights and rewrites
    airlines: what it leaves are, in their order, the flights that it does
    not delete, each equal to the flight loaded in every field but the
    airline, which is either unchanged or a string. The identifiers are
    unchanged and no flight is added. *)
Theorem normalise_keeps_all_but_airline (helicopters prefixes : list string)
  (flights : list Flight.t) :
  Forall2
    (fun f g =>
       same_but_airline f g
       /\ (Flight.airline g = Flight.airline f
           \/ exists code, Flight.airline g = Code code))
    (filter (survives helicopters prefixes) flights)
    (normalise helicopters prefixes flights)
  /\ map Flight.id (normalise helicopters prefixes flights)
     = map Flight.id (filter (survives helicopters prefixes) flights)
  /\ List.length (normalise helicopters prefixes flights)
     <= List.length flights.
Proof.
  unfold normalise, survives.
  induction flights as [|f flights (IH1 & IH2 & IH3)]; simpl.
  - repeat constructor.
  - pose proof (normalise_flight_replace helicopters prefixes f) as Hr.
    destruct (snd (normalise_flight helicopters prefixes f)) as [|g|]; simpl.
    + repeat split; auto.
    + destruct (Hr g eq_refl) as [Hs Hc].
      repeat split; [constructor; auto | | lia].
      f_equal; [apply Hs | exact IH2].
    + repeat split; [constructor; auto | | lia].
      * split; [apply same_but_airline_refl | now left].
      * now f_equal.
Qed.

(** ** Idempotence *)

Lemma digit_not_upper (d : ascii) :
  Str.is_digit d = true -> Str.is_upper (Str.upper_char d) = false.
Proof.
  destruct d as [[] [] [] [] [] [] [] []]; vm_compute; intros H;
    try reflexivity; discriminate H.
Qed.

Lemma airline_callsign_shape (cs : string) :
  Re.airline_callsign cs = true ->
  exists a b c d rest,
    cs = String a (String b (String c (String d rest)))
    /\ Str.is_upper a = true /\ Str.is_digit d = true.
Proof.
  unfold Re.airline_callsign.
  destruct cs as [|a [|b [|c [|d rest]]]]; simpl; try discriminate.
  intros H. rewrite !andb_true_iff in H.
  destruct H as [[[[[Ha _] _] Hd] _] _].
  exists a, b, c, d, rest. auto.
Qed.

Lemma airline_callsign_not_PVT (cs : string) :
  Re.airline_callsign cs = true ->
  String.eqb (Str.slice_to 3 cs) PVT = false.
Proof.
  intros H. destruct (airline_callsign_shape cs H) as (a & b & c & d & rest & -> & _).
  apply String.eqb_neq. unfold Str.slice_to, PVT. simpl. intros E.
  discriminate E.
Qed.

Lemma airline_callsign_not_four_letters (cs : string) :
  Re.airline_callsign cs = true ->
  Re.four_letters (Str.toUpperCase cs) = false.
Proof.
  intros H. destruct (airline_callsign_shape cs H) as (a & b & c & d & rest & -> & _ & Hd).
  unfold Re.four_letters. rewrite split_toUpperCase. simpl.
  rewrite (digit_not_upper d Hd). now rewrite !andb_false_r.
Qed.

Lemma stripped_not_PVT (s : string) :
  String.eqb (Re.strip_non_alnum s ++ "-") PVT = false.
Proof.
  unfold Re.strip_non_alnum.
  destruct (filter _ (Str.split_chars s)) as [|x xs] eqn:E.
  - reflexivity.
  - assert (Hx : Str.is_upper x || Str.is_digit x = true).
    { assert (Hin : In x (x :: xs)) by now left.
      rewrite <- E in Hin. apply filter_In in Hin. apply Hin. }
    simpl. unfold PVT.
    destruct (Ascii.eqb_spec x "{"%char) as [->|_]; [discriminate Hx|reflexivity].
Qed.

Section Idempotence.

Variable helicopters : list string.
Variable prefixes : list string.

Lemma is_invalid_code (f g : Flight.t) (a : string) :
  is_invalid helicopters f = false ->
  Flight.type g = Flight.type f ->
  Flight.airline g = Code a ->
  is_invalid helicopters g = false.
Proof.
  unfold is_invalid. intros H Ht Ha. rewrite Ht, Ha.
  apply orb_false_iff in H as [H _]. apply orb_false_iff in H as [H _].
  rewrite H. reflexivity.
Qed.

Lemma regional_action_again (f g : Flight.t) (tail : string) :
  In g (apply_action f (regional_action prefixes f tail)) ->
  regional_action prefixes g tail = Replace g.
Proof.
  unfold regional_action.
  assert (W : forall x, with_airline (with_airline f x) x = with_airline f x).
  { intros x. unfold with_airline. simpl. reflexivity. }
  destruct (negb _).
  - destruct (find_prefix prefixes tail); simpl; [|intros []].
    intros [<-|[]]. now rewrite W.
  - destruct (Str.indexOf tail "-"); simpl; intros [<-|[]]; now rewrite W.
Qed.

Lemma regional_action_code (f g : Flight.t) (tail : string) :
  In g (apply_action f (regional_action prefixes f tail)) ->
  Flight.tail g = Flight.tail f /\ Flight.callsign g = Flight.callsign f
  /\ Flight.type g = Flight.type f /\ exists a, Flight.airline g = Code a.
Proof.
  unfold regional_action.
  destruct (negb _).
  - destruct (find_prefix prefixes tail); simpl; [|intros []].
    intros [<-|[]]. simpl. eauto.
  - destruct (Str.indexOf tail "-"); simpl; intros [<-|[]]; simpl; eauto.
Qed.

(** A flight that the normaliser has decided is left as it is when the
    loop meets it again. *)
Lemma normalise_flight_again (f g : Flight.t) :
  In g (apply_action f (snd (normalise_flight helicopters prefixes f))) ->
  apply_action g (snd (normalise_flight helicopters prefixes g)) = [g].
Proof.
  unfold normalise_flight at 1.
  destruct (is_invalid helicopters f) eqn:Hinv; [intros []|].
  assert (Hb : (forall tail cs, Flight.tail f = Some tail ->
                                Flight.callsign f = Some cs ->
                                same_registration tail cs = false) ->
               In g (apply_action f (snd (callsign_branches f))) ->
               apply_action g (snd (normalise_flight helicopters prefixes g)) = [g]).
  { intros Hreg. unfold callsign_branches.
    destruct (Flight.callsign f) as [cs|] eqn:Hcs.
    - destruct (airline_eqb (Flight.airline f) (Code PVT)
                || airline_eqb (Flight.airline f) Null) eqn:Ha.
      + simpl. destruct (Re.airline_callsign cs) eqn:Hre; simpl; [|intros []].
        intros [<-|[]]. unfold normalise_flight.
        rewrite (is_invalid_code f (with_airline f (Str.slice_to 3 cs))
                   (Str.slice_to 3 cs) Hinv eq_refl eq_refl).
        assert (Hc : callsign_branches (with_airline f (Str.slice_to 3 cs))
                     = (untouched, Keep)).
        { unfold callsign_branches. simpl Flight.callsign. rewrite Hcs.
          simpl Flight.airline. simpl airline_eqb.
          rewrite (airline_callsign_not_PVT cs Hre).
          rewrite (airline_callsign_not_four_letters cs Hre). reflexivity. }
        simpl Flight.tail. simpl Flight.callsign. rewrite Hcs.
        destruct (Flight.tail f) as [tail|] eqn:Htail.
        * rewrite (Hreg tail cs eq_refl eq_refl). now rewrite Hc.
        * now rewrite Hc.
      + destruct (Re.four_letters (Str.toUpperCase cs)) eqn:H4; simpl.
        * intros [<-|[]]. unfold normalise_flight.
          set (a := (Re.strip_non_alnum (Str.toUpperCase cs) ++ "-")%string).
          rewrite (is_invalid_code f (with_airline_same_locations f a) a
                     Hinv eq_refl eq_refl).
          assert (Hc : callsign_branches (with_airline_same_locations f a)
                       = (long_callsign,
                          Replace (with_airline_same_locations f a))).
          { unfold callsign_branches. simpl Flight.callsign. rewrite Hcs.
            simpl Flight.airline. simpl airline_eqb.
            unfold a at 1. rewrite stripped_not_PVT. simpl. rewrite H4.
            reflexivity. }
          simpl Flight.tail. simpl Flight.callsign. rewrite Hcs.
          destruct (Flight.tail f) as [tail|] eqn:Htail.
          -- rewrite (Hreg tail cs eq_refl eq_refl). now rewrite Hc.
          -- now rewrite Hc.
        * intros [<-|[]]. unfold normalise_flight. rewrite Hinv, Hcs.
          assert (Hc : callsign_branches f = (untouched, Keep)).
          { unfold callsign_branches. now rewrite Hcs, Ha, H4. }
          destruct (Flight.tail f) as [tail|] eqn:Htail.
          -- rewrite (Hreg tail cs eq_refl eq_refl). now rewrite Hc.
          -- now rewrite Hc.
    - simpl. intros [<-|[]]. unfold normalise_flight. rewrite Hinv, Hcs.
      unfold callsign_branches. rewrite Hcs.
      destruct (Flight.tail f); reflexivity. }
  destruct (Flight.tail f) as [tail|] eqn:Htail;
    [|apply Hb; intros; discriminate].
  destruct (Flight.callsign f) as [cs|] eqn:Hcs;
    [|apply Hb; intros; discriminate].
  destruct (same_registration tail cs) eqn:Hsame;
    [|apply Hb; intros ? ? E1 E2; injection E1 as <-; injection E2 as <-; exact Hsame].
  simpl. intros Hg.
  destruct (regional_action_code f g tail Hg) as (Et & Ec & Ety & a & Ea).
  unfold normalise_flight.
  rewrite (is_invalid_code f g a Hinv Ety Ea), Et, Ec, Htail, Hcs, Hsame.
  simpl. now rewrite (regional_action_again f g tail Hg).
Qed.

(** X2. Normalising is idempotent: the normalising loop of gen, run on the
    flights that it has left, deletes none of them and rewrites no airline. *)
Theorem normalise_idempotent (flights : list Flight.t) :
  normalise helicopters prefixes (normalise helicopters prefixes flights)
  = normalise helicopters prefixes flights.
Proof.
  unfold normalise. induction flights as [|f flights IH]; simpl; [reflexivity|].
  rewrite flat_map_app, IH. f_equal.
  pose proof (normalise_flight_again f) as H.
  destruct (snd (normalise_flight helicopters prefixes f)) as [|g|]; simpl in *.
  - reflexivity.
  - rewrite app_nil_r. apply H. now left.
  - rewrite app_nil_r. apply H. now left.
Qed.

End Idempotence.

(** ** Dashes and warnings *)

Lemma prefix_empty (s : string) : String.prefix EmptyString s = true.
Proof. destruct s; reflexivity. Qed.

Lemma indexOf_from_dash (a b : string) :
  forall fuel i, String.length a <= fuel ->
                 Str.indexOf_from fuel i (a ++ String "-" b) "-" <> None.
Proof.
  induction a as [|c a IH]; intros fuel i Hf.
  - simpl append.
    assert (E : String.prefix "-" (String "-" b) = true)
      by (simpl; apply prefix_empty).
    destruct fuel; cbn [Str.indexOf_from]; rewrite E; discriminate.
  - simpl append. simpl in Hf. destruct fuel as [|fuel]; [lia|].
    cbn [Str.indexOf_from].
    destruct (String.prefix "-" (String c (a ++ String "-" b))); [discriminate|].
    apply IH. lia.
Qed.

Lemma includes_dash (a b : string) :
  Str.includes (a ++ String "-" b) "-" = true.
Proof.
  unfold Str.includes, Str.indexOf.
  pose proof (indexOf_from_dash a b (String.length (a ++ String "-" b)) 0) as H.
  destruct (Str.indexOf_from _ _ _ _); [reflexivity|].
  exfalso. apply H; [|reflexivity].
  clear. induction a; simpl; lia.
Qed.

Lemma last_char_split (s : string) (c : ascii) :
  String.substring (String.length s - 1) 1 s = String c EmptyString ->
  exists a, s = (a ++ String c EmptyString)%string.
Proof.
  induction s as [|x s IH]; [discriminate|].
  cbn [String.length]. rewrite Nat.sub_succ, Nat.sub_0_r. destruct s as [|y s].
  - simpl. intros E. exists EmptyString. exact E.
  - cbn [String.length] in *. rewrite Nat.sub_succ, Nat.sub_0_r in IH.
    cbn [String.substring]. intros E.
    destruct (IH E) as [a Ha]. exists (String x a). simpl. now rewrite <- Ha.
Qed.

Lemma endsWith_split (s : string) :
  Str.endsWith s "-" = true -> exists a, s = (a ++ "-")%string.
Proof.
  unfold Str.endsWith. intros H. apply andb_prop in H as [_ H].
  apply String.eqb_eq in H. now apply last_char_split.
Qed.

Lemma endsWith_includes (s : string) :
  Str.endsWith s "-" = true -> Str.includes s "-" = true.
Proof.
  intros H. destruct (endsWith_split s H) as [a ->]. apply includes_dash.
Qed.

Lemma tailToCallsign_has_dash (prefix sample : string) :
  Str.includes (tailToCallsign prefix sample) "-" = true.
Proof. unfold tailToCallsign. apply includes_dash. Qed.

(** X3. When the normalising loop rewrites the airline of a flight in the
    regional-registration branch (tail and callsign equal once the first
    dash is removed and the case ignored) or in the branch of a callsign
    that starts with four letters or more, the airline written is a string
    that contains a dash. *)
Theorem synthesised_airline_has_dash (helicopters prefixes : list string)
  (flight g : Flight.t)
  (Hbranch : fst (normalise_flight helicopters prefixes flight) = regional
             \/ fst (normalise_flight helicopters prefixes flight) = long_callsign)
  (Hreplace : snd (normalise_flight helicopters prefixes flight) = Replace g) :
  exists code,
    Flight.airline g = Code code /\ Str.includes code "-" = true.
Proof.
  revert Hbranch Hreplace. unfold normalise_flight.
  destruct (is_invalid helicopters flight); [intros _; discriminate|].
  assert (Hb : fst (callsign_branches flight) = regional
               \/ fst (callsign_branches flight) = long_callsign ->
               snd (callsign_branches flight) = Replace g ->
               exists code,
                 Flight.airline g = Code code /\ Str.includes code "-" = true).
  { unfold callsign_branches.
    destruct (Flight.callsign flight) as [cs|]; [|intros _; discriminate].
    destruct (_ || _); [intros [H|H]; discriminate H|].
    destruct (Re.four_letters _); [|intros _; discriminate].
    intros _ E. injection E as <-. eexists. split; [reflexivity|].
    apply includes_dash. }
  destruct (Flight.tail flight) as [tail|]; [|exact Hb].
  destruct (Flight.callsign flight) as [cs|]; [|exact Hb].
  destruct (same_registration tail cs); [|exact Hb].
  intros _. simpl. unfold regional_action.
  destruct (negb _).
  - destruct (find_prefix prefixes tail); [|discriminate].
    intros E; injection E as <-. eexists. split; [reflexivity|].
    apply tailToCallsign_has_dash.
  - destruct (Str.indexOf tail "-"); intros E; injection E as <-;
      (eexists; split; [reflexivity | apply tailToCallsign_has_dash]).
Qed.

Lemma synthesised_airline_has_dash_witness :
  exists code,
    Flight.airline
      (sample_flight 3 (Some "g-abcd") "C172" (Code "G-ABCD") (Some "GABCD"))
    = Code code
    /\ Str.includes code "-" = true.
Proof.
  apply (synthesised_airline_has_dash ["R44"] ["G"]
           (sample_flight 3 (Some "g-abcd") "C172" Null (Some "GABCD"))).
  - left. reflexivity.
  - reflexivity.
Defined.

Section Warnings.

Variable callsigns : list (string * string).
Variable NUMBERS : list (string * string).
Variable direction : Flight.t -> Direction.t.

Lemma lookup_known (key p : string) :
  lookup_callsign callsigns key = Some p ->
  known_pronunciation callsigns p = true.
Proof.
  unfold lookup_callsign, known_pronunciation.
  destruct (find _ callsigns) as [kv|] eqn:E; [|discriminate].
  simpl. intros H. injection H as <-. apply find_some in E as [Hin _].
  apply existsb_exists. exists kv. split; [assumption | apply String.eqb_refl].
Qed.

Lemma group_flight_pronounced (merged : list Cluster.t) (flight : Flight.t) :
  Forall (fun m => Cluster.pronunciation m
                   = pronounce callsigns NUMBERS (Cluster.airline m)) merged ->
  Forall (fun m => Cluster.pronunciation m
                   = pronounce callsigns NUMBERS (Cluster.airline m))
    (group_flight callsigns NUMBERS direction merged flight).
Proof.
  intros H. unfold group_flight.
  destruct (Flight.airline flight) eqn:Ha; [assumption| |];
    (destruct (find _ merged);
     [ apply update_first_Forall; [|assumption]; intros m Hm _; exact Hm
     | apply Forall_app; split; [assumption|]; constructor; [|constructor];
       unfold new_cluster; simpl; reflexivity ]).
Qed.

Lemma group_pronounced (flights : list Flight.t) (m : Cluster.t) :
  In m (scored (group callsigns NUMBERS direction flights)) ->
  Cluster.pronunciation m = pronounce callsigns NUMBERS (Cluster.airline m).
Proof.
  intros Hm. unfold scored in Hm. apply in_map_iff in Hm as (m0 & <- & Hm0).
  simpl. revert m0 Hm0. apply Forall_forall. unfold group.
  assert (H : forall merged,
             Forall (fun m => Cluster.pronunciation m
                              = pronounce callsigns NUMBERS (Cluster.airline m))
               merged ->
             Forall (fun m => Cluster.pronunciation m
                              = pronounce callsigns NUMBERS (Cluster.airline m))
               (fold_left (group_flight callsigns NUMBERS direction) flights merged)).
  { induction flights as [|f l IH]; intros merged Hmerged; simpl; auto.
    apply IH. now apply group_flight_pronounced. }
  apply H. constructor.
Qed.

Lemma warns_cases (flights : list Flight.t) (m : Cluster.t) :
  In m (scored (group callsigns NUMBERS direction flights)) ->
  warns callsigns m = true <->
  exists code,
    Cluster.airline m = Code code
    /\ Str.includes code "-" = false
    /\ lookup_callsign callsigns (Str.toUpperCase code) = None
    /\ Cluster.pronunciation m = Some (spelled code)
    /\ known_pronunciation callsigns (spelled code) = false
    /\ Num.geb (Cluster.score m) Num.lit_0_005 = true.
Proof.
  intros Hm. pose proof (group_pronounced flights m Hm) as Hp.
  unfold warns. rewrite Hp. unfold pronounce, no_trailing_dash.
  destruct (Cluster.airline m) as [| |a].
  - split; [discriminate | intros (code & E & _); discriminate].
  - split; [discriminate | intros (code & E & _); discriminate].
  - destruct (Str.endsWith a "-") eqn:He.
    + cbn [negb]. rewrite andb_false_r. cbn [andb].
      split; [discriminate|]. intros (code & E & Hi & _). injection E as <-.
      rewrite (endsWith_includes a He) in Hi. discriminate.
    + destruct (Str.includes a "-") eqn:Hi.
      * split; [discriminate|]. intros (code & E & Hi' & _). injection E as <-.
        congruence.
      * destruct (lookup_callsign callsigns (Str.toUpperCase a)) as [p|] eqn:Hl.
        -- rewrite (lookup_known _ p Hl). rewrite andb_false_r.
           split; [discriminate|]. intros (code & E & _ & Hn & _).
           injection E as <-. congruence.
        -- fold (spelled a). cbn [negb]. rewrite andb_true_r. split.
           ++ intros H. apply andb_prop in H as [Hs Hk].
              apply negb_true_iff in Hk. exists a. repeat split; auto.
           ++ intros (code & E & _ & _ & _ & Hk & Hs). injection E as <-.
              now rewrite Hs, Hk.
Qed.

(** X4. Of the clusters that gen has grouped and scored, the warning is
    written exactly for those whose airline is a string without a dash that,
    upper-cased, is no key of the callsign dictionary, so that the
    pronunciation is the code spelled in the phonetic alphabet, when that
    spelling is no value of the dictionary and the score is at least 0.005.
    A cluster whose airline contains a dash never gets a warning. *)
Theorem warning_characterised (flights : list Flight.t) (m : Cluster.t)
  (Hm : In m (scored (group callsigns NUMBERS direction flights))) :
  (warns callsigns m = true <->
   exists code,
     Cluster.airline m = Code code
     /\ Str.includes code "-" = false
     /\ lookup_callsign callsigns (Str.toUpperCase code) = None
     /\ Cluster.pronunciation m = Some (spelled code)
     /\ known_pronunciation callsigns (spelled code) = false
     /\ Num.geb (Cluster.score m) Num.lit_0_005 = true)
  /\ (forall code, Cluster.airline m = Code code ->
                   Str.includes code "-" = true ->
                   warns callsigns m = false).
Proof.
  split; [now apply (warns_cases flights)|].
  intros code Ha Hi. destruct (warns callsigns m) eqn:Hw; [|reflexivity].
  apply (warns_cases flights m Hm) in Hw as (code' & E & Hi' & _).
  congruence.
Qed.

End Warnings.

Lemma warning_characterised_witness :
  let m := Cluster.make (Code "BAW") ["A320"] [Direction.E]
             [ sample_flight 1 None "A320" (Code "BAW") None;
               sample_flight 3 None "A320" (Code "BAW") None ]
             (Num.of_Z 10) (Some "Bravo Alpha Whisky") in
  (warns [] m = true <->
   exists code,
     Cluster.airline m = Code code
     /\ Str.includes code "-" = false
     /\ lookup_callsign [] (Str.toUpperCase code) = None
     /\ Cluster.pronunciation m = Some (spelled code)
     /\ known_pronunciation [] (spelled code) = false
     /\ Num.geb (Cluster.score m) Num.lit_0_005 = true)
  /\ (forall code, Cluster.airline m = Code code ->
                   Str.includes code "-" = true ->
                   warns [] m = false).
Proof.
  apply (warning_characterised [] [] (fun _ => Direction.E) three_airlines).
  left. vm_compute. reflexivity.
Defined.

(** ** Grouping *)

Lemma airline_eqb_eq (a b : Airline) : airline_eqb a b = true <-> a = b.
Proof.
  destruct a as [| |x], b as [| |y]; simpl; split; intros H;
    try reflexivity; try discriminate H.
  - apply String.eqb_eq in H. now subst.
  - injection H as ->. apply String.eqb_refl.
Qed.

Lemma direction_eqb_eq (a b : Direction.t) : Direction.eqb a b = true <-> a = b.
Proof. destruct a, b; simpl; split; intros H; try reflexivity; discriminate H. Qed.

Lemma set_has_string (s : list string) (x : string) :
  set_has String.eqb s x = true <-> In x s.
Proof.
  unfold set_has. rewrite existsb_exists. split.
  - intros (y & Hy & E). apply String.eqb_eq in E. now subst.
  - intros H. exists x. split; [assumption | apply String.eqb_refl].
Qed.

Lemma set_has_direction (s : list Direction.t) (x : Direction.t) :
  set_has Direction.eqb s x = true <-> In x s.
Proof.
  unfold set_has. rewrite existsb_exists. split.
  - intros (y & Hy & E). apply direction_eqb_eq in E. now subst.
  - intros H. exists x. split; [assumption | now apply direction_eqb_eq].
Qed.

Lemma belongs_iff (flight : Flight.t) (d : Direction.t) (m : Cluster.t) :
  belongs flight d m = true <->
  Cluster.airline m = Flight.airline flight
  /\ In (Flight.type flight) (Cluster.type m)
  /\ In d (Cluster.direction m).
Proof.
  unfold belongs.
  rewrite !andb_true_iff, airline_eqb_eq, set_has_string, set_has_direction.
  tauto.
Qed.

Section Clusters.

Variable callsigns : list (string * string).
Variable NUMBERS : list (string * string).
Variable direction : Flight.t -> Direction.t.

Lemma update_first_flights (flight : Flight.t) (d : Direction.t)
  (x : Cluster.t) (l : list Cluster.t) :
  find (belongs flight d) l = Some x ->
  Permutation
    (flat_map Cluster.flights
       (update_first (belongs flight d) (absorb flight d) l))
    (flight :: flat_map Cluster.flights l).
Proof.
  induction l as [|m l IH]; simpl; [discriminate|].
  destruct (belongs flight d m).
  - intros _. simpl. rewrite <- app_assoc. simpl.
    symmetry. apply Permutation_middle.
  - intros H. simpl. rewrite (IH H). symmetry. apply Permutation_middle.
Qed.

Lemma group_flight_flights (merged : list Cluster.t) (flight : Flight.t) :
  Permutation
    (flat_map Cluster.flights
       (group_flight callsigns NUMBERS direction merged flight))
    (flat_map Cluster.flights merged ++ filter has_airline [flight]).
Proof.
  unfold group_flight, has_airline. simpl.
  assert (Hnew : Permutation
                   (flat_map Cluster.flights
                      (merged ++ [new_cluster callsigns NUMBERS flight (direction flight)]))
                   (flat_map Cluster.flights merged ++ [flight])).
  { rewrite flat_map_app. simpl. reflexivity. }
  destruct (Flight.airline flight); [now rewrite app_nil_r| |];
    (destruct (find _ merged) eqn:Hf;
     [ rewrite (update_first_flights _ _ _ _ Hf); apply Permutation_cons_append
     | exact Hnew ]).
Qed.

Lemma fold_group_flights (flights : list Flight.t) :
  forall merged,
    Permutation
      (flat_map Cluster.flights
         (fold_left (group_flight callsigns NUMBERS direction) flights merged))
      (flat_map Cluster.flights merged ++ filter has_airline flights).
Proof.
  induction flights as [|f l IH]; intros merged; simpl fold_left.
  - simpl. now rewrite app_nil_r.
  - rewrite IH, group_flight_flights.
    change (f :: l) with ([f] ++ l). rewrite filter_app, app_assoc. reflexivity.
Qed.

(** X5. The grouping loop puts every flight whose airline is not undefined
    into exactly one cluster: the flights of all the clusters together are a
    permutation of those flights, and the member counts add up to their
    number. *)
Theorem clusters_partition_flights (flights : list Flight.t) :
  Permutation
    (flat_map Cluster.flights (group callsigns NUMBERS direction flights))
    (filter has_airline flights)
  /\ members (group callsigns NUMBERS direction flights)
     = List.length (filter has_airline flights).
Proof.
  assert (H : Permutation
                (flat_map Cluster.flights (group callsigns NUMBERS direction flights))
                (filter has_airline flights))
    by apply (fold_group_flights flights []).
  split; [exact H|].
  rewrite <- (Permutation_length H). unfold members.
  generalize (group callsigns NUMBERS direction flights).
  induction l as [|m l IH]; simpl; [reflexivity|].
  now rewrite length_app, IH.
Qed.

Lemma update_first_keys (flight : Flight.t) (d : Direction.t)
  (l : list Cluster.t) :
  map cluster_key (update_first (belongs flight d) (absorb flight d) l)
  = map cluster_key l.
Proof.
  induction l as [|m l IH]; simpl; [reflexivity|].
  destruct (belongs flight d m) eqn:Hb; simpl; [|now rewrite IH].
  f_equal. unfold cluster_key.
  destruct (absorb_adds_nothing flight d m Hb) as [-> ->]. reflexivity.
Qed.

Lemma group_flight_uniform (merged : list Cluster.t) (flight : Flight.t) :
  Forall (uniform direction) merged /\ NoDup (map cluster_key merged) ->
  Forall (uniform direction) (group_flight callsigns NUMBERS direction merged flight)
  /\ NoDup (map cluster_key
              (group_flight callsigns NUMBERS direction merged flight)).
Proof.
  intros [Hu Hn]. unfold group_flight.
  assert (Hcase :
    match find (belongs flight (direction flight)) merged with
    | Some _ =>
        Forall (uniform direction)
          (update_first (belongs flight (direction flight))
             (absorb flight (direction flight)) merged)
        /\ NoDup (map cluster_key
                    (update_first (belongs flight (direction flight))
                       (absorb flight (direction flight)) merged))
    | None =>
        Forall (uniform direction)
          (merged ++ [new_cluster callsigns NUMBERS flight (direction flight)])
        /\ NoDup (map cluster_key
                    (merged ++ [new_cluster callsigns NUMBERS flight (direction flight)]))
    end).
  { destruct (find _ merged) as [found|] eqn:Hf.
    - split; [|now rewrite update_first_keys].
      apply update_first_Forall; [|assumption].
      intros m (t & d & Ht & Hd & Hall) Hb.
      destruct (absorb_adds_nothing flight (direction flight) m Hb) as [Et Ed].
      exists t, d. rewrite Et, Ed. split; [exact Ht|]. split; [exact Hd|].
      intros f Hin. unfold absorb in Hin; simpl in Hin.
      apply in_app_or in Hin as [Hin|[<-|[]]]; [now apply Hall|].
      apply belongs_iff in Hb as (Ha & Hit & Hid).
      rewrite Ht in Hit. rewrite Hd in Hid.
      destruct Hit as [<-|[]]. destruct Hid as [<-|[]]. auto.
    - split.
      + apply Forall_app. split; [assumption|]. constructor; [|constructor].
        exists (Flight.type flight), (direction flight). simpl.
        split; [reflexivity|]. split; [reflexivity|].
        intros f [<-|[]]. auto.
      + rewrite map_app. simpl.
        apply (Permutation_NoDup (Permutation_cons_append _ _)).
        constructor; [|assumption].
        intros Hin. apply in_map_iff in Hin as (m & Hk & Hm).
        pose proof (find_none _ _ Hf m Hm) as Hb.
        assert (Ht : belongs flight (direction flight) m = true).
        { apply belongs_iff. unfold cluster_key, new_cluster in Hk. simpl in Hk.
          injection Hk as -> -> ->. repeat split; now left. }
        congruence. }
  destruct (Flight.airline flight); [split; assumption| |];
    (destruct (find _ merged); exact Hcase).
Qed.

Lemma group_uniform (flights : list Flight.t) :
  Forall (uniform direction) (group callsigns NUMBERS direction flights)
  /\ NoDup (map cluster_key (group callsigns NUMBERS direction flights)).
Proof.
  unfold group.
  assert (H : forall merged,
             Forall (uniform direction) merged /\ NoDup (map cluster_key merged) ->
             Forall (uniform direction)
               (fold_left (group_flight callsigns NUMBERS direction) flights merged)
             /\ NoDup (map cluster_key
                         (fold_left (group_flight callsigns NUMBERS direction)
                            flights merged))).
  { induction flights as [|f l IH]; intros merged Hm; simpl; [exact Hm|].
    apply IH. now apply group_flight_uniform. }
  apply H. split; constructor.
Qed.

(** X6. No two clusters have the same airline, type set and direction set,
    and every flight of a cluster, not only the one that seeded it, has the
    airline of the cluster, its one type and its one direction. *)
Theorem clusters_are_uniform_and_distinct (flights : list Flight.t) :
  NoDup (map cluster_key (group callsigns NUMBERS direction flights))
  /\ forall m f,
       In m (group callsigns NUMBERS direction flights) ->
       In f (Cluster.flights m) ->
       cluster_key m = (Flight.airline f, [Flight.type f], [direction f]).
Proof.
  destruct (group_uniform flights) as [Hu Hn]. split; [exact Hn|].
  intros m f Hm Hf. rewrite Forall_forall in Hu.
  destruct (Hu m Hm) as (t & d & Ht & Hd & Hall).
  destruct (Hall f Hf) as (Ea & Et & Ed).
  unfold cluster_key. now rewrite Ht, Hd, Ea, Et, Ed.
Qed.

End Clusters.

(** ** Lines *)

Section Lines.

Variable helicopters : list string.
Variable prefixes : list string.
Variable callsigns : list (string * string).
Variable NUMBERS : list (string * string).
Variable direction : Flight.t -> Direction.t.
Variable localeCompare : string -> string -> Z.
Variable toFixed2 : Num.number -> string.

(** X7. The line of every cluster that gen has grouped and scored is a tab,
    the airline, the score to two decimals, one aircraft type in lower case,
    the pronunciation or 0, and one direction in lower case, separated by a
    comma and a space: the type and the direction are those of a flight of
    the cluster, and the two fields never join several values. *)
Theorem line_has_one_type_and_direction (flights : list Flight.t) :
  Forall
    (fun m =>
       exists seed,
         In seed (Cluster.flights m)
         /\ line localeCompare toFixed2 m
            = (String (ascii_of_nat 9) EmptyString
               ++ airline_text (Flight.airline seed) ++ ", "
               ++ toFixed2 (Cluster.score m) ++ ", "
               ++ Str.toLowerCase (Flight.type seed) ++ ", "
               ++ match Cluster.pronunciation m with
                  | None => "0"
                  | Some p => p
                  end
               ++ ", "
               ++ Str.toLowerCase (Direction.name (direction seed)))%string)
    (scored (group callsigns NUMBERS direction flights)).
Proof.
  apply Forall_forall. intros m Hm.
  unfold scored in Hm. apply in_map_iff in Hm as (m0 & <- & Hm0).
  pose proof (group_seeded callsigns NUMBERS direction flights) as Hs.
  rewrite Forall_forall in Hs.
  destruct (Hs m0 Hm0) as (seed & rest & Hf & Ha & Ht & Hd).
  exists seed. split.
  - unfold set_score. simpl. rewrite Hf. now left.
  - unfold line, set_score. cbn [Cluster.airline Cluster.type Cluster.direction
                                   Cluster.score Cluster.pronunciation].
    rewrite Ha, Ht, Hd. reflexivity.
Qed.

End Lines.

(** ** The first line *)



Section First.

Variable helicopters : list string.
Variable prefixes : list string.
Variable callsigns : list (string * string).
Variable NUMBERS : list (string * string).
Variable direction : Flight.t -> Direction.t.
Variable localeCompare : string -> string -> Z.
Variable toFixed2 : Num.number -> string.


End First.


(** ** TailToCallsign again *)





(** ** Properties of stripAnsi *)




























Lemma some_eq (A : Type) (x y : A) : Some x = Some y -> x = y.
Proof. congruence. Qed.









(** ** The table command *)

Lemma StronglySorted_filter (A : Type) (R : A -> A -> Prop) (p : A -> bool)
  (l : list A) :
  StronglySorted R l -> StronglySorted R (filter p l).
Proof.
  induction 1 as [|x l HS IH Hx]; simpl; [constructor|].
  destruct (p x); [|assumption]. constructor; [assumption|].
  rewrite Forall_forall in *. intros y Hy. apply filter_In in Hy as [Hy _]. auto.
Qed.

Lemma StronglySorted_firstn (A : Type) (R : A -> A -> Prop) (n : nat)
  (l : list A) :
  StronglySorted R l -> StronglySorted R (firstn n l).
Proof.
  intros HS. revert n. induction HS as [|x l HS IH Hx]; intros [|n]; simpl;
    try constructor.
  - apply IH.
  - rewrite Forall_forall in *. intros y Hy. apply Hx.
    rewrite <- (firstn_skipn n l). apply in_or_app. now left.
Qed.

Lemma StronglySorted_across (A : Type) (R : A -> A -> Prop) (l1 l2 : list A) :
  StronglySorted R (l1 ++ l2) ->
  forall x y, In x l1 -> In y l2 -> R x y.
Proof.
  induction l1 as [|a l1 IH]; intros HS x y Hx Hy; [destruct Hx|].
  simpl in HS. inversion HS as [|? ? Hl Ha]; subst.
  destruct Hx as [->|Hx]; [|now apply IH].
  rewrite Forall_forall in Ha. apply Ha. apply in_or_app. now right.
Qed.

Lemma slice_0_prefix (A : Type) (l : list A) (limit : Num.number) :
  exists n, slice_0 l limit = firstn n l.
Proof. unfold slice_0. eexists. reflexivity. Qed.

Lemma by_time_sorted (R : Flight.t -> Flight.t -> Prop)
  (flights : list Flight.t) :
  StronglySorted R flights ->
  StronglySorted (then_by by_time R) (js_sort by_time flights).
Proof.
  apply (js_sort_stable _ by_time (fun _ => True)).
  - intros a b _ _. unfold by_time. apply Z.compare_antisym.
  - intros a b c _ _ _. unfold by_time. rewrite !Z.compare_gt_iff. lia.
  - apply Forall_forall. auto.
Qed.

Section TableProperties.

Variable row : Flight.t -> DataRow.

(** X11. The rows of table are those of the flights shown in the order of
    their times, the earliest first, and reversed as a whole under
    --reverse. The flights shown are the first ones, as far as the limit
    allows, of the loaded flights within the --after and --before bounds,
    both inclusive: the limit cuts before the reversal and keeps the
    earliest flights, and flights of equal time keep the order in which they
    were loaded. *)
Theorem table_rows_in_time_order (after before : option Z)
  (limit : Num.number) (reverse : bool) (flights : list Flight.t) :
  let shown := table_flights after before limit flights in
  table_rows row after before limit reverse flights
  = (if reverse then rev (map row shown) else map row shown)
  /\ (exists later,
        filter (in_window after before) (js_sort by_time flights)
        = shown ++ later
        /\ forall f g, In f shown -> In g later ->
                       (Flight.time f <= Flight.time g)%Z)
  /\ StronglySorted (fun f g => (Flight.time f <= Flight.time g)%Z) shown
  /\ (forall R, StronglySorted R flights ->
                StronglySorted (then_by by_time R) shown)
  /\ (forall f, In f shown ->
                In f flights
                /\ match after with
                   | None => True
                   | Some t => (t <= Flight.time f)%Z
                   end
                /\ match before with
                   | None => True
                   | Some t => (Flight.time f <= t)%Z
                   end).
Proof.
  intros shown.
  set (window := filter (in_window after before) (js_sort by_time flights)).
  destruct (slice_0_prefix _ window limit) as [n Hn].
  assert (Es : shown = firstn n window) by exact Hn.
  assert (Hstable : forall R, StronglySorted R flights ->
                              StronglySorted (then_by by_time R) window).
  { intros R HR. apply StronglySorted_filter. now apply by_time_sorted. }
  assert (Hle : StronglySorted (fun f g => (Flight.time f <= Flight.time g)%Z)
                  window).
  { apply (StronglySorted_weaken _ (then_by by_time (fun _ _ => True))).
    - intros a b _ _ [H|[H _]]; unfold by_time in H.
      + rewrite Z.compare_lt_iff in H. lia.
      + apply Z.compare_eq in H. lia.
    - apply Hstable. apply StronglySorted_trivial. }
  split; [reflexivity|]. split; [|split; [|split]].
  - exists (skipn n window). split; [now rewrite Es, firstn_skipn|].
    intros f g Hf Hg. rewrite Es in Hf.
    rewrite <- (firstn_skipn n window) in Hle.
    apply (StronglySorted_across _ _ _ _ Hle); assumption.
  - rewrite Es. now apply StronglySorted_firstn.
  - intros R HR. rewrite Es. apply StronglySorted_firstn. now apply Hstable.
  - intros f Hf. rewrite Es in Hf.
    assert (Hw : In f window).
    { rewrite <- (firstn_skipn n window). apply in_or_app. now left. }
    unfold window in Hw. apply filter_In in Hw as [Hin Hw].
    split; [apply (Permutation_in _ (js_sort_perm _ by_time flights) Hin)|].
    unfold in_window in Hw. apply andb_prop in Hw as [Ha Hb].
    destruct after, before; repeat split; try apply Z.leb_le; assumption.
Qed.

End TableProperties.

(** ** The limit *)

Lemma of_Z_neg (p : positive) :
  Num.of_Z (Z.neg p) = SFopp (Num.of_Z (Z.pos p)).
Proof.
  unfold Num.of_Z, binary_normalize, binary_round.
  destruct (shl_align _ _ _) as [mz ez]. unfold binary_round_aux.
  destruct (shr_fexp _ _ _ _ _) as [mrs e].
  destruct (shr_fexp _ _ _ _ _) as [mrs' e'].
  destruct (shr_m mrs'); try reflexivity.
  destruct (e' <=? _)%Z; reflexivity.
Qed.

Lemma ToIntegerOrInfinity_of_Z (n : Z) :
  (- 2 ^ 53 < n < 2 ^ 53)%Z ->
  ToIntegerOrInfinity (Num.of_Z n) = Integer n.
Proof.
  assert (Hpos : forall k, (1 <= k < 2 ^ 53)%Z ->
                   exists m e, Num.of_Z k = S754_finite false m e
                               /\ (if (0 <=? e)%Z then (Z.pos m * 2 ^ e)%Z
                                   else (Z.pos m / 2 ^ (- e))%Z) = k).
  { intros k Hk. destruct (of_Z_exact k Hk) as (m & e & E & He & Hm & Em).
    exists m, e. split; [exact E|].
    destruct (Z.leb_spec 0 e).
    - replace e with 0%Z in * by lia. rewrite Em. simpl. lia.
    - rewrite Em. apply Z.div_mul.
      assert (0 < 2 ^ (- e))%Z by (apply Z.pow_pos_nonneg; lia). lia. }
  intros Hn. destruct n as [|p|p].
  - reflexivity.
  - destruct (Hpos (Z.pos p) ltac:(lia)) as (m & e & -> & E).
    unfold ToIntegerOrInfinity. now rewrite E.
  - rewrite of_Z_neg.
    destruct (Hpos (Z.pos p) ltac:(lia)) as (m & e & -> & E).
    unfold SFopp, ToIntegerOrInfinity. cbn [negb]. now rewrite E.
Qed.

(** X12. Without --limit (Infinity) table shows every flight of the window;
    with a limit n from 1 to 2^53 - 1 the first n of them; with the limit -n
    all but the last n; and with 0, or a limit that is not a number, none. *)
Theorem table_limit_cases (after before : option Z) (flights : list Flight.t)
  (n : Z) (Hn : (1 <= n < 2 ^ 53)%Z) :
  let window := filter (in_window after before) (js_sort by_time flights) in
  table_flights after before (S754_infinity false) flights = window
  /\ table_flights after before (Num.of_Z n) flights
     = firstn (Z.to_nat n) window
  /\ table_flights after before (Num.of_Z (- n)) flights
     = firstn (List.length window - Z.to_nat n) window
  /\ table_flights after before (Num.of_Z 0) flights = []
  /\ table_flights after before Num.NaN flights = [].
Proof.
  intros window. unfold table_flights. fold window. unfold slice_0.
  rewrite !ToIntegerOrInfinity_of_Z by lia.
  cbn [ToIntegerOrInfinity Num.NaN].
  repeat split.
  - rewrite Nat2Z.id. apply firstn_all.
  - destruct (Z.ltb_spec n 0); [lia|].
    destruct (Z.min_spec n (Z.of_nat (List.length window))) as [[H1 ->]|[H1 ->]].
    + reflexivity.
    + rewrite Nat2Z.id, firstn_all. symmetry. apply firstn_all2. lia.
  - destruct (Z.ltb_spec (- n) 0); [|lia]. f_equal. lia.
  - cbn [Z.ltb Z.compare]. rewrite Z.min_l by lia. reflexivity.
  - cbn [Z.ltb Z.compare]. rewrite Z.min_l by lia. reflexivity.
Qed.

Lemma table_limit_cases_witness :
  let window := filter (in_window None None) (js_sort by_time three_airlines) in
  table_flights None None (S754_infinity false) three_airlines = window
  /\ table_flights None None (Num.of_Z 2) three_airlines
     = firstn (Z.to_nat 2) window
  /\ table_flights None None (Num.of_Z (- 2)) three_airlines
     = firstn (List.length window - Z.to_nat 2) window
  /\ table_flights None None (Num.of_Z 0) three_airlines = []
  /\ table_flights None None Num.NaN three_airlines = [].
Proof.
  apply (table_limit_cases None None three_airlines 2). vm_compute.
  split; [discriminate | reflexivity].
Defined.

(** ** The flow command *)




Section FlowProperties.

Variable helicopters : list string.
Variable isoDate : Z -> string.
Variable utcHours : Z -> Z.



End FlowProperties.

(** ** The days of the week *)

Lemma by_weekday_monday_first (a b : WeekDay.t) (x y : Z) :
  on_day a x -> on_day b y ->
  by_weekday a b = (monday_first x ?= monday_first y)%Z.
Proof.
  intros [Hx Ea] [Hy Eb]. unfold by_weekday. rewrite Ea, Eb.
  assert (Cx : (x = 0 \/ x = 1 \/ x = 2 \/ x = 3 \/ x = 4 \/ x = 5 \/ x = 6)%Z)
    by lia.
  assert (Cy : (y = 0 \/ y = 1 \/ y = 2 \/ y = 3 \/ y = 4 \/ y = 5 \/ y = 6)%Z)
    by lia.
  clear - Cx Cy.
  destruct Cx as [->|[->|[->|[->|[->|[->| ->]]]]]];
    destruct Cy as [->|[->|[->|[->|[->|[->| ->]]]]]]; vm_compute; reflexivity.
Qed.

(** X14. The comparator that sorts the weekday entries of flow lists them
    from Monday to Sunday: for entries whose day is a number of getUTCDay,
    the sorted list is a permutation of the entries in non-decreasing order
    of (day + 6) mod 7, so that Sunday, day 0, comes last, and entries of
    one day keep their order. *)
Theorem weekdays_from_monday (entries : list WeekDay.t)
  (Hdays : Forall (fun a => exists d, on_day a d) entries) :
  Permutation (js_sort by_weekday entries) entries
  /\ StronglySorted
       (fun a b => forall x y, on_day a x -> on_day b y ->
                               (monday_first x <= monday_first y)%Z)
       (js_sort by_weekday entries)
  /\ forall R, StronglySorted R entries ->
               StronglySorted (then_by by_weekday R) (js_sort by_weekday entries).
Proof.
  assert (Hstable : forall R, StronglySorted R entries ->
                      StronglySorted (then_by by_weekday R)
                        (js_sort by_weekday entries)).
  { intros R HR.
    apply (js_sort_stable _ by_weekday (fun a => exists d, on_day a d));
      [| |assumption|assumption].
    - intros a b [x Hx] [y Hy].
      rewrite (by_weekday_monday_first a b x y), (by_weekday_monday_first b a y x)
        by assumption.
      apply Z.compare_antisym.
    - intros a b c [x Hx] [y Hy] [z Hz].
      rewrite (by_weekday_monday_first a b x y), (by_weekday_monday_first b c y z),
        (by_weekday_monday_first a c x z) by assumption.
      rewrite !Z.compare_gt_iff. lia. }
  split; [apply js_sort_perm|]. split; [|exact Hstable].
  apply (StronglySorted_weaken _ (then_by by_weekday (fun _ _ => True)));
    [|apply Hstable, StronglySorted_trivial].
  intros a b _ _ Hab x y Hx Hy. unfold then_by in Hab.
  rewrite (by_weekday_monday_first a b x y) in Hab by assumption.
  destruct Hab as [H|[H _]].
  - rewrite Z.compare_lt_iff in H. lia.
  - apply Z.compare_eq in H. lia.
Qed.

Lemma weekdays_from_monday_witness :
  Permutation (js_sort by_weekday week_from_saturday) week_from_saturday
  /\ StronglySorted
       (fun a b => forall x y, on_day a x -> on_day b y ->
                               (monday_first x <= monday_first y)%Z)
       (js_sort by_weekday week_from_saturday)
  /\ forall R, StronglySorted R week_from_saturday ->
               StronglySorted (then_by by_weekday R)
                 (js_sort by_weekday week_from_saturday).
Proof.
  apply (weekdays_from_monday week_from_saturday).
  repeat constructor.
  - exists 6%Z. split; [lia | reflexivity].
  - exists 0%Z. split; [lia | reflexivity].
  - exists 1%Z. split; [lia | reflexivity].
  - exists 3%Z. split; [lia | reflexivity].
Defined.

(** ** The Map of the flights *)

Lemma map_set_keys (flights : FlightMap) (key : Z) (value : Flight.t) :
  map fst (map_set flights key value)
  = set_add Z.eqb (map fst flights) key.
Proof.
  unfold set_add, set_has.
  induction flights as [|[k v] flights IH]; simpl; [reflexivity|].
  rewrite (Z.eqb_sym key k). destruct (Z.eqb_spec k key) as [->|Hne]; simpl.
  - reflexivity.
  - rewrite IH. destruct (existsb (Z.eqb key) (map fst flights)); reflexivity.
Qed.

Lemma set_add_NoDup (s : list Z) (x : Z) :
  NoDup s -> NoDup (set_add Z.eqb s x).
Proof.
  intros H. unfold set_add, set_has.
  destruct (existsb (Z.eqb x) s) eqn:E; [assumption|].
  apply (Permutation_NoDup (Permutation_cons_append s x)).
  constructor; [|assumption]. intros Hin.
  assert (existsb (Z.eqb x) s = true)
    by (apply existsb_exists; exists x; split; [assumption | apply Z.eqb_refl]).
  congruence.
Qed.

Lemma map_set_keyed (flights : FlightMap) (flight : Flight.t) :
  keyed flights -> keyed (map_set flights (Flight.id flight) flight).
Proof.
  intros [Hk Hn]. split.
  - clear Hn. induction Hk as [|[k v] flights Hkv Hk IH]; simpl.
    + repeat constructor.
    + destruct (k =? Flight.id flight)%Z; constructor; auto.
  - rewrite map_set_keys. now apply set_add_NoDup.
Qed.

Lemma map_get_set (flights : FlightMap) (key k : Z) (value : Flight.t) :
  map_get (map_set flights key value) k
  = if (key =? k)%Z then Some value else map_get flights k.
Proof.
  unfold map_get. induction flights as [|[k' v'] flights IH]; simpl.
  - destruct (key =? k)%Z; reflexivity.
  - destruct (Z.eqb_spec k' key) as [->|Hne]; simpl.
    + destruct (key =? k)%Z; reflexivity.
    + destruct (Z.eqb_spec k' k) as [->|Hne']; simpl.
      * destruct (Z.eqb_spec key k); [congruence | reflexivity].
      * exact IH.
Qed.

Lemma find_append (A : Type) (p : A -> bool) (l1 l2 : list A) :
  find p (l1 ++ l2)
  = match find p l1 with
    | Some x => Some x
    | None => find p l2
    end.
Proof.
  induction l1 as [|a l1 IH]; simpl; [reflexivity|].
  destruct (p a); [reflexivity | exact IH].
Qed.

Lemma set_all_get (loaded : list Flight.t) :
  forall flights k,
    map_get (set_all flights loaded) k
    = match last_with k loaded with
      | Some flight => Some flight
      | None => map_get flights k
      end.
Proof.
  unfold set_all, last_with.
  induction loaded as [|f loaded IH]; intros flights k; simpl; [reflexivity|].
  rewrite IH, find_append.
  destruct (find _ (rev loaded)); [reflexivity|].
  simpl. rewrite map_get_set. destruct (Flight.id f =? k)%Z; reflexivity.
Qed.

Lemma set_all_keys (loaded : list Flight.t) :
  forall flights,
    map fst (set_all flights loaded)
    = fold_left (set_add Z.eqb) (map Flight.id loaded) (map fst flights).
Proof.
  unfold set_all.
  induction loaded as [|f loaded IH]; intros flights; simpl; [reflexivity|].
  now rewrite IH, map_set_keys.
Qed.

Lemma set_all_keyed (loaded : list Flight.t) :
  forall flights, keyed flights -> keyed (set_all flights loaded).
Proof.
  unfold set_all.
  induction loaded as [|f loaded IH]; intros flights H; simpl; [assumption|].
  apply IH. now apply map_set_keyed.
Qed.

Section LoadingProperties.

Variable JSON_parse : string -> Json + string.
Variable construct : Json -> option Flight.t.
Variable path_join : string -> string -> string.
Variable stdin : string.
Variable fs : string -> Node.

Lemma load_paths_done (paths : list string) :
  forall flights result,
    load_paths JSON_parse construct path_join stdin fs paths flights
    = Done result ->
    exists batches,
      Forall2 (fun path batch => load_path JSON_parse construct path_join stdin fs path = Done batch) paths batches
      /\ result = set_all flights (List.concat batches).
Proof.
  induction paths as [|path paths IH]; intros flights result; simpl.
  - intros E. injection E as <-. exists []. split; [constructor | reflexivity].
  - fold (load_path JSON_parse construct path_join stdin fs path).
    destruct (load_path JSON_parse construct path_join stdin fs path) as [loaded| |] eqn:El;
      try discriminate.
    intros E. destruct (IH _ _ E) as (batches & Hb & ->).
    exists (loaded :: batches). split; [constructor; assumption|].
    simpl. unfold set_all. now rewrite fold_left_app.
Qed.

(** X15. When loadFlights returns, its Map holds the flights of the distinct
    paths, loaded in the order given: no identifier is a key twice, every
    key is the identifier of its flight, the keys stand in the order in
    which the identifiers were first met, and the flight under an identifier
    is the last one loaded with it. *)
Theorem loadFlights_last_wins (p : list string) (flights : FlightMap)
  (Hdone : loadFlights JSON_parse construct path_join stdin fs p = Done flights) :
  exists batches,
    Forall2 (fun path batch => load_path JSON_parse construct path_join stdin fs path = Done batch)
      (fold_left (set_add String.eqb) p []) batches
    /\ flights = set_all [] (List.concat batches)
    /\ NoDup (map fst flights)
    /\ Forall (fun kv => fst kv = Flight.id (snd kv)) flights
    /\ map fst flights
       = fold_left (set_add Z.eqb) (map Flight.id (List.concat batches)) []
    /\ forall id, map_get flights id = last_with id (List.concat batches).
Proof.
  unfold loadFlights in Hdone.
  destruct (load_paths_done _ _ _ Hdone) as (batches & Hb & ->).
  exists batches. split; [exact Hb|]. split; [reflexivity|].
  assert (Hk : keyed (set_all [] (List.concat batches))).
  { apply set_all_keyed. split; constructor. }
  split; [apply Hk|]. split; [apply Hk|]. split.
  - apply (set_all_keys (List.concat batches) []).
  - intros id. rewrite set_all_get.
    destruct (last_with id (List.concat batches)); reflexivity.
Qed.

End LoadingProperties.

Lemma loadFlights_last_wins_witness :
  let flights := [ (1%Z, sample_flight 1 None "A319" Null None);
                   (2%Z, sample_flight 2 None "B738" Null None) ] in
  exists batches,
    Forall2 (fun path batch =>
               load_path parse_example construct_example join_example ""
                 fs_example path = Done batch)
      (fold_left (set_add String.eqb)
         ["monday.json"; "tuesday.json"; "monday.json"] []) batches
    /\ flights = set_all [] (List.concat batches)
    /\ NoDup (map fst flights)
    /\ Forall (fun kv => fst kv = Flight.id (snd kv)) flights
    /\ map fst flights
       = fold_left (set_add Z.eqb) (map Flight.id (List.concat batches)) []
    /\ forall id, map_get flights id = last_with id (List.concat batches).
Proof.
  apply (loadFlights_last_wins parse_example construct_example join_example ""
           fs_example ["monday.json"; "tuesday.json"; "monday.json"]).
  vm_compute. reflexivity.
Defined.

(** ** Directories and lines *)

Section FilesProperties.

Variable JSON_parse : string -> Json + string.
Variable construct : Json -> option Flight.t.
Variable path_join : string -> string -> string.

Lemma load_entries_files (file : string) (before : list (string * Node))
  (batches : list (list Flight.t)) :
  Forall2 (loads_as_file JSON_parse construct path_join file) before batches ->
  forall rest d flights,
    load_entries (loadFlightsFromFs JSON_parse construct path_join) path_join
      file (before ++ rest) d flights
    = load_entries (loadFlightsFromFs JSON_parse construct path_join) path_join
        file rest (d + List.length before) (flights ++ List.concat batches).
Proof.
  induction 1 as [|[dirent child] loaded before batches (contents & Ec & El) Hrest IH];
    intros rest d flights.
  - simpl. now rewrite Nat.add_0_r, app_nil_r.
  - simpl in Ec. subst child. cbn [app load_entries loadFlightsFromFs].
    simpl fst in El. rewrite El, IH. simpl List.length. simpl List.concat.
    rewrite <- app_assoc. f_equal. lia.
Qed.

(** X16. The depth of loadFlightsFromFs is incremented for every entry of a
    directory, not only on descent: in a directory read at depth d <= 5, a
    sub-directory that stands after k files that load fails with maximum
    sub-directory depth reached as soon as d + k >= 5, and is read when d +
    k < 5 (when it is empty and the last entry, the result is the flights of
    the files). *)
Theorem depth_counts_entries (file name : string)
  (before after sub : list (string * Node)) (batches : list (list Flight.t))
  (d : nat) (Hd : d <= 5)
  (Hfiles : Forall2 (loads_as_file JSON_parse construct path_join file) before batches) :
  let result :=
    loadFlightsFromFs JSON_parse construct path_join file
      (Directory (before ++ (name, Directory sub) :: after)) d in
  (5 <= d + List.length before ->
   result = Exit (path_join file name ++ ": maximum sub-directory depth reached"))
  /\ (d + List.length before < 5 -> sub = [] -> after = [] ->
      result = Done (List.concat batches)).
Proof.
  intros result. unfold result. cbn [loadFlightsFromFs].
  destruct (Nat.ltb_spec 5 d) as [H|_]; [lia|].
  rewrite (load_entries_files file before batches Hfiles).
  cbn [load_entries loadFlightsFromFs app]. split.
  - intros H. destruct (Nat.ltb_spec 5 (S (d + List.length before))) as [_|H'];
      [reflexivity | lia].
  - intros H -> ->.
    destruct (Nat.ltb_spec 5 (S (d + List.length before))) as [H'|_]; [lia|].
    cbn [load_entries]. now rewrite app_nil_r.
Qed.



End FilesProperties.

Lemma depth_counts_entries_witness :
  let empty := ("empty.json", File "[]") in
  let result :=
    loadFlightsFromFs parse_example construct_example join_example "data"
      (Directory ([empty; empty; empty; empty; empty]
                  ++ ("sub", Directory []) :: [])) 0 in
  (5 <= 0 + List.length [empty; empty; empty; empty; empty] ->
   result
   = Exit (join_example "data" "sub"
           ++ ": maximum sub-directory depth reached")%string)
  /\ (0 + List.length [empty; empty; empty; empty; empty] < 5 ->
      @nil (string * Node) = [] -> @nil (string * Node) = [] ->
      result = Done (List.concat [[]; []; []; []; []])).
Proof.
  apply (depth_counts_entries parse_example construct_example join_example
           "data" "sub").
  - lia.
  - repeat constructor; exists "[]"; split; reflexivity.
Defined.


(** ** What fetch keeps and writes *)

Lemma map_has_In (flights : FlightMap) (key : Z) :
  map_has flights key = true <-> In key (map fst flights).
Proof.
  unfold map_has. rewrite existsb_exists, in_map_iff. split.
  - intros (kv & Hin & E). apply Z.eqb_eq in E. eauto.
  - intros (kv & E & Hin). exists kv. split; [assumption|]. now apply Z.eqb_eq.
Qed.

Lemma map_set_new (flights : FlightMap) (key : Z) (value : Flight.t) :
  map_has flights key = false ->
  map_set flights key value = flights ++ [(key, value)].
Proof.
  unfold map_has. induction flights as [|[k v] flights IH]; simpl; [reflexivity|].
  intros H. apply orb_false_iff in H as [Hk H]. simpl in Hk. rewrite Hk.
  now rewrite IH.
Qed.

Lemma keep_new_spec (page : list Flight.t) :
  forall flights newlyFetched,
  exists new,
    keep_new flights page newlyFetched
    = (flights ++ map entry new, newlyFetched ++ new)
    /\ NoDup (map Flight.id new)
    /\ Forall (fun flight => map_has flights (Flight.id flight) = false) new
    /\ incl new page.
Proof.
  induction page as [|f page IH]; intros flights newlyFetched; simpl.
  - exists []. simpl. rewrite !app_nil_r. repeat split; try constructor.
    intros x [].
  - destruct (map_has flights (Flight.id f)) eqn:Hf.
    + destruct (IH flights newlyFetched) as (new & E & Hn & Hm & Hi).
      exists new. repeat split; auto. intros x Hx. right. now apply Hi.
    + rewrite (map_set_new _ _ _ Hf).
      destruct (IH (flights ++ [(Flight.id f, f)]) (newlyFetched ++ [f]))
        as (new & E & Hn & Hm & Hi).
      exists (f :: new). rewrite E. simpl. rewrite <- !app_assoc. simpl.
      split; [reflexivity|]. rewrite Forall_forall in Hm.
      split; [|split].
      * constructor; [|assumption]. intros Hin.
        apply in_map_iff in Hin as (g & Eg & Hg).
        specialize (Hm g Hg). rewrite Eg in Hm.
        assert (map_has (flights ++ [(Flight.id f, f)]) (Flight.id f) = true).
        { apply map_has_In. rewrite map_app. apply in_or_app. right. now left. }
        congruence.
      * constructor; [assumption|]. apply Forall_forall. intros g Hg.
        specialize (Hm g Hg). unfold map_has in *. rewrite existsb_app in Hm.
        now apply orb_false_iff in Hm.
      * intros x [<-|Hx]; [now left | right; now apply Hi].
Qed.

Lemma settle_spec (results : list Settled) :
  forall flights newlyFetched,
  exists new error,
    settle flights results newlyFetched
    = (flights ++ map entry new, newlyFetched ++ new, error)
    /\ NoDup (map Flight.id new)
    /\ Forall (fun flight => map_has flights (Flight.id flight) = false) new.
Proof.
  induction results as [|[page more|reason] results IH];
    intros flights newlyFetched; simpl.
  - exists [], false. simpl. rewrite !app_nil_r. repeat split; constructor.
  - destruct (keep_new_spec page flights newlyFetched) as (new1 & E1 & N1 & M1 & _).
    rewrite E1.
    destruct (IH (flights ++ map entry new1) (newlyFetched ++ new1))
      as (new2 & error & E2 & N2 & M2).
    exists (new1 ++ new2), error. rewrite E2, map_app, <- !app_assoc.
    split; [reflexivity|]. rewrite Forall_forall in M1, M2. split.
    + rewrite map_app. apply NoDup_app; try assumption.
      intros k Hk1 Hk2. apply in_map_iff in Hk2 as (g & <- & Hg).
      specialize (M2 g Hg).
      assert (map_has (flights ++ map entry new1) (Flight.id g) = true).
      { apply map_has_In. rewrite map_app. apply in_or_app. right.
        rewrite map_map. exact Hk1. }
      congruence.
    + apply Forall_forall. intros g Hg. apply in_app_or in Hg as [Hg|Hg];
        [now apply M1|].
      specialize (M2 g Hg). unfold map_has in *. rewrite existsb_app in M2.
      now apply orb_false_iff in M2.
  - exists [], (negb reason). simpl. rewrite !app_nil_r. repeat split; constructor.
Qed.

Lemma concat_write_chunk (written : list (list Flight.t)) (new : list Flight.t) :
  List.concat (write_chunk written new) = List.concat written ++ new.
Proof.
  destruct new; simpl; [now rewrite app_nil_r|].
  rewrite concat_app. simpl. now rewrite app_nil_r.
Qed.

Lemma extends_consistent (st st' : Fetch.state) (wrote : bool) :
  extends st st' wrote -> consistent st ->
  consistent st' /\ (wrote = true -> complete st -> complete st').
Proof.
  intros (new & Ef & Ew & Hn & Hm) ([Hk Hd] & Hw & Hin).
  rewrite Forall_forall in Hm, Hin.
  assert (Hfresh : forall f, In f new -> ~ In (Flight.id f) (map fst (Fetch.flights st))).
  { intros f Hf Hi. apply map_has_In in Hi. specialize (Hm f Hf). congruence. }
  split; [split; [split|split]|].
  - rewrite Ef. apply Forall_app. split; [assumption|].
    apply Forall_forall. intros kv Hkv. apply in_map_iff in Hkv as (f & <- & _).
    reflexivity.
  - rewrite Ef, map_app, map_map. simpl. apply NoDup_app; try assumption.
    + intros k Hk1 Hk2. apply in_map_iff in Hk2 as (f & <- & Hf).
      now apply (Hfresh f Hf).
  - rewrite Ew, map_app. destruct wrote; [|now rewrite app_nil_r].
    apply NoDup_app; try assumption.
    intros k Hk1 Hk2. apply in_map_iff in Hk1 as (g & <- & Hg).
    apply in_map_iff in Hk2 as (f & E & Hf).
    apply (Hfresh f Hf). rewrite E.
    apply in_map_iff. exists (entry g). split; [reflexivity | now apply Hin].
  - rewrite Ew, Ef. apply Forall_forall. intros f Hf.
    apply in_or_app. apply in_app_or in Hf as [Hf|Hf].
    + left. now apply Hin.
    + right. destruct wrote; [|destruct Hf]. now apply in_map.
  - intros -> Hc. unfold complete in *. now rewrite Ef, Ew, map_app, Hc.
Qed.

Lemma fetch_initial_extends (st : Fetch.state) (page : list Flight.t)
  (more : bool) :
  extends st (fetch_initial st page more) true
  /\ Fetch.stands (fetch_initial st page more) <> Fetch.failed.
Proof.
  unfold fetch_initial.
  destruct (keep_new_spec page (Fetch.flights st) []) as (new & E & Hn & Hm & _).
  rewrite E. split.
  - exists new. simpl. rewrite concat_write_chunk. auto.
  - simpl. destruct more; discriminate.
Qed.

Lemma fetch_round_extends (st : Fetch.state) (results : list Settled) :
  exists wrote,
    extends st (fetch_round st results) wrote
    /\ (Fetch.stands st <> Fetch.failed ->
        Fetch.stands (fetch_round st results) <> Fetch.failed ->
        wrote = true).
Proof.
  assert (Hsame : extends st st true).
  { exists []. simpl. rewrite !app_nil_r. repeat split; constructor. }
  unfold fetch_round. destruct (Fetch.stands st) eqn:Es.
  - destruct (settle_spec results (Fetch.flights st) [])
      as (new & error & E & Hn & Hm).
    rewrite E. destruct error.
    + exists false. split; [|intros _ H; now elim H].
      exists new. simpl. rewrite app_nil_r. auto.
    + exists true. split; [|reflexivity].
      exists new. simpl. rewrite concat_write_chunk. auto.
  - exists true. split; [exact Hsame | reflexivity].
  - exists true. split; [exact Hsame | reflexivity].
Qed.

Lemma fetch_round_sound (st : Fetch.state) (results : list Settled) :
  sound st -> sound (fetch_round st results).
Proof.
  intros [Hc Hf]. destruct (fetch_round_extends st results) as (wrote & He & Hw).
  destruct (extends_consistent _ _ _ He Hc) as [Hc' Hcomplete].
  split; [exact Hc'|]. intros Hnf.
  assert (Hst : Fetch.stands st <> Fetch.failed).
  { intros E. unfold fetch_round in Hnf. rewrite E in Hnf. congruence. }
  apply Hcomplete; auto.
Qed.

Lemma fetch_key_sound (st : Fetch.state) (page : list Flight.t) (more : bool)
  (rounds : list (list Settled)) :
  sound st -> Fetch.stands st <> Fetch.failed ->
  sound (fetch_key st page more rounds).
Proof.
  intros [Hc Hf] Hst. unfold fetch_key.
  assert (H0 : sound (fetch_initial st page more)).
  { destruct (fetch_initial_extends st page more) as [He _].
    destruct (extends_consistent _ _ _ He Hc) as [Hc' Hcomplete].
    split; [exact Hc'|]. intros _. apply Hcomplete; auto. }
  revert H0. generalize (fetch_initial st page more).
  induction rounds as [|results rounds IH]; intros s Hs; simpl; [exact Hs|].
  apply IH. now apply fetch_round_sound.
Qed.

Lemma keyed_get (flights : FlightMap) (key : Z) (value : Flight.t) :
  NoDup (map fst flights) -> In (key, value) flights ->
  map_get flights key = Some value.
Proof.
  unfold map_get. induction flights as [|[k v] flights IH]; simpl; [intros _ []|].
  intros Hn Hin. inversion Hn as [|? ? Hk Hn']; subst.
  destruct Hin as [E|Hin].
  - injection E as -> ->. now rewrite Z.eqb_refl.
  - destruct (Z.eqb_spec k key) as [->|Hne]; [|now apply IH].
    exfalso. apply Hk. apply in_map_iff. exists (key, value). auto.
Qed.

(** X18. Whatever the requests of fetch bring, no flight identifier is
    written twice, the Map has no key twice, every flight written is the one
    that the Map holds under its identifier, and unless a turn has failed
    the flights written are exactly those of the Map, in the same order. *)
Theorem fetch_writes_each_flight_once
  (responses : list (list Flight.t * bool * list (list Settled))) :
  let st := fetch_keys responses in
  NoDup (map Flight.id (List.concat (Fetch.written st)))
  /\ NoDup (map fst (Fetch.flights st))
  /\ Forall (fun flight =>
               map_get (Fetch.flights st) (Flight.id flight) = Some flight)
       (List.concat (Fetch.written st))
  /\ (Fetch.stands st <> Fetch.failed ->
      map snd (Fetch.flights st) = List.concat (Fetch.written st)).
Proof.
  intros st.
  assert (H : sound st).
  { unfold st, fetch_keys.
    assert (H0 : sound (Fetch.make [] [] Fetch.finished)).
    { split; [|reflexivity]. repeat split; constructor. }
    revert H0. generalize (Fetch.make [] [] Fetch.finished).
    induction responses as [|[[page more] rounds] responses IH]; intros s Hs;
      simpl; [exact Hs|].
    apply IH. destruct (Fetch.stands s) eqn:Es; try exact Hs;
      apply fetch_key_sound; try exact Hs; rewrite Es; discriminate. }
  destruct H as [([Hk Hn] & Hw & Hin) Hc].
  split; [exact Hw|]. split; [exact Hn|]. split.
  - rewrite Forall_forall in *. intros f Hf. apply keyed_get; [exact Hn|].
    now apply Hin.
  - intros Hst. rewrite (Hc Hst), map_map. apply map_id.
Qed.

(** X19. A turn of the loop of fetch in which a request is rejected with a
    reason that is not null, the requests before it being fulfilled, writes
    nothing, although the Map keeps the new flights of those requests, and
    no later turn changes anything. A turn without any request leaves the
    loop running in the same state. *)
Theorem failed_turn_writes_nothing (st : Fetch.state)
  (before after : list Settled)
  (Hrunning : Fetch.stands st = Fetch.running)
  (Hbefore : Forall (fun result => exists page more, result = Fulfilled page more)
               before) :
  let st' := fetch_round st (before ++ Rejected false :: after) in
  Fetch.written st' = Fetch.written st
  /\ Fetch.stands st' = Fetch.failed
  /\ Fetch.flights st' = fst (fst (settle (Fetch.flights st) before []))
  /\ (forall results, fetch_round st' results = st')
  /\ fetch_round st [] = st.
Proof.
  intros st'.
  assert (Hs : forall results flights newly,
             Forall (fun result => exists page more, result = Fulfilled page more)
               results ->
             settle flights (results ++ Rejected false :: after) newly
             = (fst (fst (settle flights results newly)),
                snd (fst (settle flights results newly)), true)).
  { induction results as [|r results IH]; intros flights newly Hall.
    - reflexivity.
    - inversion Hall as [|? ? (page & more & ->) Hrest]; subst.
      simpl. destruct (keep_new flights page newly) as [flights' newly'].
      now apply IH. }
  assert (E : st' = Fetch.make (fst (fst (settle (Fetch.flights st) before [])))
                      (Fetch.written st) Fetch.failed).
  { unfold st', fetch_round. rewrite Hrunning, (Hs before _ _ Hbefore).
    reflexivity. }
  rewrite E. simpl. repeat split.
  unfold fetch_round. rewrite Hrunning. simpl.
  destruct st as [flights written stands]. simpl in *. now subst.
Qed.

Lemma failed_turn_writes_nothing_witness :
  let st := Fetch.make [] [] Fetch.running in
  let page := [sample_flight 1 None "A320" Null None] in
  let st' := fetch_round st ([Fulfilled page true] ++ Rejected false :: []) in
  Fetch.written st' = Fetch.written st
  /\ Fetch.stands st' = Fetch.failed
  /\ Fetch.flights st'
     = fst (fst (settle (Fetch.flights st) [Fulfilled page true] []))
  /\ (forall results, fetch_round st' results = st')
  /\ fetch_round st [] = st.
Proof.
  apply (failed_turn_writes_nothing (Fetch.make [] [] Fetch.running)
           [Fulfilled [sample_flight 1 None "A320" Null None] true] []).
  - reflexivity.
  - repeat constructor. eexists. eexists. reflexivity.
Defined.

(** ** The flights of a page *)

Lemma SFcompare_lt_transitive (x y z : Num.number) :
  SFcompare x y = Some Lt -> SFcompare y z = Some Lt ->
  SFcompare x z = Some Lt.
Proof.
  destruct x as [[]|[]| |[] mx ex];
    destruct y as [[]|[]| |[] my ey]; cbn [SFcompare]; try discriminate;
    destruct z as [[]|[]| |[] mz ez]; cbn [SFcompare]; try discriminate;
    try reflexivity;
    rewrite ?compare_cont_Z;
    destruct (Z.compare_spec ex ey), (Z.compare_spec ey ez), (Z.compare_spec ex ez);
    try discriminate; try reflexivity; try lia;
    destruct (Z.compare_spec (Z.pos mx) (Z.pos my)),
      (Z.compare_spec (Z.pos my) (Z.pos mz)),
      (Z.compare_spec (Z.pos mx) (Z.pos mz));
    cbn [CompOpp]; try discriminate; try reflexivity; try lia.
Qed.

Lemma ltb_keeps_least (a b c : Num.number) :
  Num.ltb a b = true -> Num.ltb c b = false -> Num.ltb c a = false.
Proof.
  unfold Num.ltb, SFltb. intros Hab Hcb.
  destruct (SFcompare c a) as [[]|] eqn:Eca; try reflexivity.
  destruct (SFcompare a b) as [[]|] eqn:Eab; try discriminate.
  rewrite (SFcompare_lt_transitive c a b Eca Eab) in Hcb. discriminate.
Qed.

Lemma ltb_irreflexive (a : Num.number) : Num.ltb a a = false.
Proof.
  unfold Num.ltb, SFltb.
  destruct a as [[]|[]| |[] m e]; cbn [SFcompare]; try reflexivity;
    rewrite Z.compare_refl, compare_cont_Z, Z.compare_refl; reflexivity.
Qed.

Lemma accept_checked (departures : bool) (icao : string)
  (flight : string -> Member) (f : Fetched.t) :
  accept departures icao flight = Some f -> checked icao f.
Proof.
  unfold accept.
  destruct (flight "fid"); try discriminate.
  destruct (if departures then _ else _); try discriminate.
  destruct (string_or_null (flight "acr")); try discriminate.
  destruct (flight "act") as [| | | |type|]; try discriminate.
  destruct (String.eqb_spec type "GRND") as [|Hg]; [discriminate|].
  destruct (String.eqb_spec (Str.toLowerCase type) "zzzz") as [|Hz];
    [discriminate|].
  cbn [orb].
  destruct (string_or_null (coalesce _ MNull)); try discriminate.
  destruct (string_or_null (coalesce (coalesce _ _) _)); try discriminate.
  destruct (location_of _ _ _) as [to|]; try discriminate.
  destruct (location_of _ _ _) as [from|]; try discriminate.
  destruct (String.eqb_spec (loc_name to) (loc_name from)) as [|Hn];
    [discriminate|].
  intros E. injection E as <-. unfold checked. cbn.
  repeat split; try assumption.
  - destruct (String.eqb_spec (loc_name from) icao); [auto | discriminate].
  - intros ->. now rewrite String.eqb_refl.
Qed.

Lemma get_list_spec (departures : bool) (icao : string)
  (records : list (string -> Member)) :
  forall flights oldest t,
    Forall (checked icao) flights ->
    Forall (fun f => Num.ltb (Fetched.time f) oldest = false) flights ->
    Num.ltb t oldest = false ->
    (oldest = t \/ exists f, In f flights /\ oldest = Fetched.time f) ->
    let result := get_list departures icao records flights oldest in
    Forall (checked icao) (fst result)
    /\ Forall (fun f => Num.ltb (Fetched.time f) (snd result) = false)
         (fst result)
    /\ Num.ltb t (snd result) = false
    /\ (snd result = t \/ exists f, In f (fst result) /\ snd result = Fetched.time f)
    /\ List.length (fst result) <= List.length flights + List.length records.
Proof.
  induction records as [|flight records IH]; intros flights oldest t Hc Ho Ht Hw.
  - simpl. repeat split; auto. lia.
  - cbn [get_list].
    destruct (accept departures icao flight) as [f|] eqn:Ea.
    + cbn zeta.
      set (oldest' := if Num.ltb (Fetched.time f) oldest then Fetched.time f
                      else oldest).
      assert (Hc' : Forall (checked icao) (flights ++ [f])).
      { apply Forall_app. split; [assumption|]. constructor; [|constructor].
        apply (accept_checked _ _ _ _ Ea). }
      assert (Ho' : Forall (fun g => Num.ltb (Fetched.time g) oldest' = false)
                      (flights ++ [f])).
      { unfold oldest'. destruct (Num.ltb (Fetched.time f) oldest) eqn:El.
        - apply Forall_app. split.
          + eapply Forall_impl; [|exact Ho]. intros g Hg. simpl in Hg.
            now apply (ltb_keeps_least _ oldest).
          + constructor; [apply ltb_irreflexive | constructor].
        - apply Forall_app. split; [assumption|]. constructor; [exact El|constructor]. }
      assert (Ht' : Num.ltb t oldest' = false).
      { unfold oldest'. destruct (Num.ltb (Fetched.time f) oldest) eqn:El;
          [now apply (ltb_keeps_least _ oldest) | assumption]. }
      assert (Hw' : oldest' = t
                    \/ exists g, In g (flights ++ [f]) /\ oldest' = Fetched.time g).
      { unfold oldest'. destruct (Num.ltb (Fetched.time f) oldest).
        - right. exists f. split; [apply in_or_app; right; now left | reflexivity].
        - destruct Hw as [->|(g & Hg & ->)]; [now left|].
          right. exists g. split; [apply in_or_app; now left | reflexivity]. }
      destruct (IH (flights ++ [f]) oldest' t Hc' Ho' Ht' Hw')
        as (H1 & H2 & H3 & H4 & H5).
      repeat split; auto. rewrite length_app in H5. simpl in *. lia.
    + destruct (IH flights oldest t Hc Ho Ht Hw) as (H1 & H2 & H3 & H4 & H5).
      repeat split; auto. simpl. lia.
Qed.

(** X20. Every flight that get returns has a type that is not GRND and is
    not zzzz in any case, a destination name other than the origin name, and
    is a departure exactly when its origin is the airport asked for. Neither
    a returned flight nor the time asked for is earlier than oldest, which
    is one of these times, and there are no more flights than records. *)
Theorem get_returns_checked_flights (departures : bool) (icao : string)
  (records : list (string -> Member)) (t : Num.number) :
  let flights := fst (get_list departures icao records [] t) in
  let oldest := snd (get_list departures icao records [] t) in
  Forall (checked icao) flights
  /\ Forall (fun f => Num.ltb (Fetched.time f) oldest = false) flights
  /\ Num.ltb t oldest = false
  /\ (oldest = t \/ exists f, In f flights /\ oldest = Fetched.time f)
  /\ List.length flights <= List.length records.
Proof.
  intros flights oldest.
  apply (get_list_spec departures icao records [] t t).
  - constructor.
  - constructor.
  - apply ltb_irreflexive.
  - now left.
Qed.

(** ** The members of a record *)

Lemma string_or_null_reads (m : Member) (v : option string) :
  string_or_null m = Some v <-> reads_as m v.
Proof.
  unfold reads_as. destruct m, v; simpl; split; intros H;
    try discriminate; try congruence.
Qed.

Lemma coalesce_null (a : Member) (v : option string) :
  reads_as (coalesce a MNull) v ->
  match v with
  | Some s => a = MString s
  | None => nullish a
  end.
Proof.
  unfold reads_as, nullish. destruct a, v; simpl; intros H;
    try discriminate; auto.
Qed.

Lemma coalesce_cases (a b : Member) :
  (nullish a /\ coalesce a b = b) \/ (~ nullish a /\ coalesce a b = a).
Proof.
  unfold nullish.
  destruct a; simpl; auto; right; (split; [intros [H|H]; discriminate H|]);
    reflexivity.
Qed.

(** X21. A record that get takes has a numeric fid and a string act; its acr
    is a string or null, and not absent; its airline is csalic when that
    member is present, a string or null, and otherwise alic, where an absent
    alic reads as null; and its callsign is the first of cs, fnic and ectlcs
    that is neither null nor absent, a null callsign requiring cs and fnic
    null or absent and ectlcs present and null. *)
Theorem get_takes_null_not_undefined (departures : bool) (icao : string)
  (flight : string -> Member) (f : Fetched.t)
  (Htaken : accept departures icao flight = Some f) :
  flight "fid" = MNumber (Fetched.id f)
  /\ flight "act" = MString (Fetched.type f)
  /\ reads_as (flight "acr") (Fetched.tail f)
  /\ (flight "csalic" <> MUndefined ->
      reads_as (flight "csalic") (Fetched.airline f))
  /\ (flight "csalic" = MUndefined ->
      match Fetched.airline f with
      | Some a => flight "alic" = MString a
      | None => nullish (flight "alic")
      end)
  /\ reads_as (coalesce (coalesce (flight "cs") (flight "fnic"))
                 (flight "ectlcs")) (Fetched.callsign f)
  /\ (Fetched.callsign f = None ->
      nullish (flight "cs") /\ nullish (flight "fnic")
      /\ flight "ectlcs" = MNull).
Proof.
  unfold accept in Htaken.
  destruct (flight "fid") as [| | |id| |] eqn:Hid; try discriminate.
  destruct (if departures then _ else _) as [| | |seconds| |];
    try discriminate.
  destruct (string_or_null (flight "acr")) as [tail|] eqn:Htail;
    [|discriminate].
  destruct (flight "act") as [| | | |type|] eqn:Htype; try discriminate.
  destruct (_ || _); [discriminate|].
  destruct (string_or_null (coalesce _ MNull)) as [airline|] eqn:Hairline;
    [|discriminate].
  destruct (string_or_null (coalesce (coalesce _ _) _)) as [callsign|]
    eqn:Hcallsign; [|discriminate].
  destruct (location_of _ _ _) as [to|]; [|discriminate].
  destruct (location_of _ _ _) as [from|]; [|discriminate].
  destruct (String.eqb _ _); [discriminate|].
  apply some_eq in Htaken. subst f. cbn [Fetched.id Fetched.type Fetched.tail
    Fetched.airline Fetched.callsign].
  apply string_or_null_reads in Htail, Hairline, Hcallsign.
  split; [reflexivity|]. split; [reflexivity|]. split; [exact Htail|].
  split; [|split; [|split; [exact Hcallsign|]]].
  - intros Hdef. destruct (flight "csalic"); try congruence;
      destruct airline; simpl in Hairline; try discriminate; auto.
  - intros Hundef. rewrite Hundef in Hairline. now apply coalesce_null.
  - intros ->. unfold reads_as in Hcallsign.
    destruct (coalesce_cases (flight "cs") (flight "fnic")) as [[Hcs E]|[Hcs E]];
      rewrite E in Hcallsign.
    + destruct (coalesce_cases (flight "fnic") (flight "ectlcs"))
        as [[Hf E']|[Hf E']]; rewrite E' in Hcallsign.
      * auto.
      * exfalso. apply Hf. now right.
    + destruct (coalesce_cases (flight "cs") (flight "ectlcs"))
        as [[Hc E']|[Hc E']]; [contradiction|].
      rewrite E' in Hcallsign. exfalso. apply Hcs. now right.
Qed.

Lemma get_takes_null_not_undefined_witness :
  let f := Fetched.make (Num.of_Z 7) (Num.of_Z 1700000000000) None "A320"
             None None
             (mkLocation "EGLL" (Num.of_Z 0) (Num.of_Z 0))
             (mkLocation "LFPG" (Num.of_Z 0) (Num.of_Z 0)) arrival in
  record_example "fid" = MNumber (Fetched.id f)
  /\ record_example "act" = MString (Fetched.type f)
  /\ reads_as (record_example "acr") (Fetched.tail f)
  /\ (record_example "csalic" <> MUndefined ->
      reads_as (record_example "csalic") (Fetched.airline f))
  /\ (record_example "csalic" = MUndefined ->
      match Fetched.airline f with
      | Some a => record_example "alic" = MString a
      | None => nullish (record_example "alic")
      end)
  /\ reads_as (coalesce (coalesce (record_example "cs") (record_example "fnic"))
                 (record_example "ectlcs")) (Fetched.callsign f)
  /\ (Fetched.callsign f = None ->
      nullish (record_example "cs") /\ nullish (record_example "fnic")
      /\ record_example "ectlcs" = MNull).
Proof.
  apply (get_takes_null_not_undefined false "EGLL" record_example).
  vm_compute. reflexivity.
Defined.
